(** * coretracer: span lifecycle engine, tombstone ledger, tag container

    A shallow embedding of the Go package [github.com/InjectiveLabs/coretracer]
    and theorems about it.  Go values are modelled as follows:

    - [map[string]any] objects live in a heap of map objects and are referred
      to by index, so that aliasing between copies of a [SafeMap] is visible;
    - spans are mutable objects owned by the OpenTelemetry SDK; they live in a
      store and are referred to by index;
    - a function that may panic returns an [Outcome];
    - closures are defunctionalised: a [SpanEnderFn] is the record of the
      variables the Go closure captures. *)

From Stdlib Require Import ZArith Lia.
From stdpp Require Import base option list gmap strings pretty.

Open Scope string_scope.
Open Scope list_scope.

(** ** Go values *)

(** [float64] values are carried as their IEEE-754 bit pattern. *)
Definition float64 := Z.

(** The dynamic values that [anyToOtalAttribute] distinguishes.  A pointer is
    [None] when it is a typed nil pointer. *)
Inductive any :=
| AnyNil
| AnyString (s : string)
| AnyInt (z : Z)
| AnyInt64 (z : Z)
| AnyFloat64 (f : float64)
| AnyBool (b : bool)
| AnyStrings (l : list string)
| AnyInts (l : list Z)
| AnyInt64s (l : list Z)
| AnyFloat64s (l : list float64)
| AnyBools (l : list bool)
| AnyPtrString (p : option string)
| AnyPtrInt (p : option Z)
| AnyPtrInt64 (p : option Z)
| AnyPtrFloat64 (p : option float64)
| AnyPtrBool (p : option bool)
| AnyPtrStrings (p : option (list string))
| AnyPtrInts (p : option (list Z))
| AnyPtrInt64s (p : option (list Z))
| AnyPtrFloat64s (p : option (list float64))
| AnyPtrBools (p : option (list bool))
| AnyStringer (rendered : string)
| AnyOther (formatted : string).

(** [runtime.Frame] *)
Record Frame := mkFrame {
  Function : string;
  File : string;
  Line : Z
}.

(** The result of running Go code that may panic. *)
Inductive Outcome (A : Type) :=
| Return (a : A)
| Panic (msg : string).
Arguments Return {A} a.
Arguments Panic {A} msg.

Definition nilDereference : string :=
  "invalid memory address or nil pointer dereference".
Definition nilMapWrite : string := "assignment to entry in nil map".
Definition closeOfClosed : string := "close of closed channel".

(** ** safemap.go and tags.go *)

Module SafeMaps.

(** The heap: [nextMux] is the next fresh [*sync.RWMutex] address,
    [mapObjs] the map objects allocated so far. *)
Record Heap := mkHeap {
  nextMux : nat;
  mapObjs : list (gmap string any)
}.

(** [SafeMap]: both fields are references; the zero value has both nil. *)
Record SafeMap := mkSafeMap {
  mux : option nat;
  m : option nat
}.

(** [type Tags SafeMap] *)
Definition Tags := SafeMap.

Definition zeroTags : Tags := {| mux := None; m := None |}.

(** The entries of the map object [r] refers to; ranging over a nil map
    yields nothing. *)
Definition deref (h : Heap) (r : option nat) : gmap string any :=
  match r with
  | None => ∅
  | Some i => default ∅ (mapObjs h !! i)
  end.

Definition allocMap (entries : gmap string any) (h : Heap) : SafeMap * Heap :=
  ({| mux := Some (nextMux h); m := Some (length (mapObjs h)) |},
   {| nextMux := S (nextMux h); mapObjs := mapObjs h ++ [entries] |}).

Definition newSafeMap (h : Heap) : SafeMap * Heap := allocMap ∅ h.

Definition newSafeMapWith (k v : string) (h : Heap) : SafeMap * Heap :=
  allocMap {[ k := AnyString v ]} h.

Definition IsValid (sm : SafeMap) : bool :=
  match mux sm with Some _ => true | None => false end.

(** [sm.m[k] = v] under the writer lock. *)
Definition Set_ (sm : SafeMap) (k : string) (v : any) (h : Heap)
  : Outcome SafeMap * Heap :=
  match mux sm with
  | None => (Panic nilDereference, h)
  | Some _ =>
      match m sm with
      | None => (Panic nilMapWrite, h)
      | Some i =>
          (Return sm,
           {| nextMux := nextMux h;
              mapObjs := alter (fun o => <[ k := v ]> o) i (mapObjs h) |})
      end
  end.

Definition Map (sm : SafeMap) : option nat := m sm.

(** [for k, v := range src { dst[k] = v }] on map values. *)
Definition copyInto (src dst : gmap string any) : gmap string any :=
  map_fold (fun k v acc => <[ k := v ]> acc) dst src.

(** [Tags.With] *)
Definition With (t : Tags) (k v : string) (h : Heap) : Outcome Tags * Heap :=
  match mux t with
  | None => let '(sm, h') := newSafeMapWith k v h in (Return sm, h')
  | Some _ => Set_ t k (AnyString v) h
  end.

(** The loop of [Tags.Range] over the entries in iteration order. *)
Fixpoint rangeLoop {A} (rangeFn : string -> any -> A -> Outcome (A * bool))
    (entries : list (string * any)) (acc : A) : Outcome A :=
  match entries with
  | [] => Return acc
  | (k, v) :: rest =>
      match rangeFn k v acc with
      | Panic e => Panic e
      | Return (acc', valid) =>
          if valid then rangeLoop rangeFn rest acc' else Return acc'
      end
  end.

(** [Tags.Range]; the callback threads the state [A] it closes over.  Go
    leaves the iteration order of a map unspecified; [map_to_list] fixes
    one. *)
Definition Range {A} (t : Tags)
    (rangeFn : string -> any -> A -> Outcome (A * bool)) (acc : A) (h : Heap)
  : Outcome A :=
  match mux t with
  | None => Return acc
  | Some _ => rangeLoop rangeFn (map_to_list (deref h (m t))) acc
  end.

(** [for k, v := range src { allTags.m[k] = v }], where [allTags.m] is the
    map object at address [dst]. *)
Definition rangeCopy (src : gmap string any) (dst : nat) (h : Heap) : Heap :=
  {| nextMux := nextMux h;
     mapObjs := alter (copyInto src) dst (mapObjs h) |}.

(** The second loop of [Tags.Union]. *)
Fixpoint unionLoop (allTags : nat) (tags : list Tags) (h : Heap) : Heap :=
  match tags with
  | [] => h
  | tagMap :: rest =>
      match mux tagMap with
      | None => unionLoop allTags rest h
      | Some _ =>
          unionLoop allTags rest (rangeCopy (deref h (m tagMap)) allTags h)
      end
  end.

(** [Tags.Union]: [allTags] is allocated first and then filled in place. *)
Definition Union (t : Tags) (tags : list Tags) (h : Heap) : Tags * Heap :=
  let allTags := length (mapObjs h) in
  let '(sm, h1) := newSafeMap h in
  let h2 :=
    match mux t with
    | None => h1
    | Some _ => rangeCopy (deref h1 (m t)) allTags h1
    end in
  (sm, unionLoop allTags tags h2).

(** [NewTags] *)
Definition NewTags (mapsToUnion : list (gmap string any)) (h : Heap)
  : Tags * Heap :=
  match mapsToUnion with
  | [] => newSafeMap h
  | _ => allocMap (foldl (fun acc mp => copyInto mp acc) ∅ mapsToUnion) h
  end.

(** What a reader sees in a tag set: nothing when it is the zero value. *)
Definition view (h : Heap) (t : Tags) : gmap string any :=
  if IsValid t then deref h (m t) else ∅.

(** The map a tag set refers to, if any, was allocated in [h]. *)
Definition allocated (h : Heap) (t : Tags) : Prop :=
  match m t with
  | None => True
  | Some i => i < length (mapObjs h)
  end.

End SafeMaps.

(** ** The collaborators: clock, structured logger, OpenTelemetry spans

    The exporter, the logger and the wall clock are external to the package.
    Their observable state is gathered in [World].  Span handles follow the
    contract of the OpenTelemetry SDK's recording span: every mutator is
    ignored once the span has ended, and a status is replaced only by a status
    of equal or higher code ([Unset] < [Error] < [Ok]). *)

Module Otel.

(** Instants and durations are nanosecond counts; a span handle is the index
    of the span object in the store. *)
Abbreviation Time := Z (only parsing).
Abbreviation SpanId := nat (only parsing).

(** [codes.Code] *)
Inductive Code := Unset | Error | Ok.

Definition codeRank (c : Code) : nat :=
  match c with Unset => 0 | Error => 1 | Ok => 2 end.

(** [attribute.Value] *)
Inductive Value :=
| VString (s : string)
| VInt64 (z : Z)
| VFloat64 (f : float64)
| VBool (b : bool)
| VStringSlice (l : list string)
| VInt64Slice (l : list Z)
| VFloat64Slice (l : list float64)
| VBoolSlice (l : list bool).

(** [attribute.KeyValue] *)
Record KeyValue := mkKeyValue { Key : string; Val : Value }.

(** The errors handed to [RecordError]: a caller's error, known by its
    [Error()] text, or the watchdog's [fmt.Errorf] value, known by its
    arguments. *)
Inductive ErrorValue :=
| UserError (text : string)
| StuckError (name : string) (stuckFor : Time).

(** An [exception] event of a span. *)
Record Event := mkEvent {
  evError : ErrorValue;
  evAttributes : list KeyValue;
  evWithStackTrace : bool
}.

Record Span := mkSpan {
  name : string;
  parent : option SpanId;
  startTime : Time;
  endTime : option Time;
  statusCode : Code;
  statusDescription : string;
  attributes : list KeyValue;
  events : list Event
}.

(** [context.Context]: the span it carries and the tombstone values. *)
Record Context := mkContext {
  ctxSpan : option SpanId;
  spanDone : bool;
  spanError : bool;
  spanStuck : bool
}.

Definition Background : Context :=
  {| ctxSpan := None; spanDone := false; spanError := false;
     spanStuck := false |}.

Definition ContextWithSpan (ctx : Context) (s : SpanId) : Context :=
  {| ctxSpan := Some s; spanDone := spanDone ctx; spanError := spanError ctx;
     spanStuck := spanStuck ctx |}.

(** [trace.SpanFromContext], with the contract the engine is written
    against: the handle, or none. *)
Definition SpanFromContext (ctx : Context) : option SpanId := ctxSpan ctx.

Inductive Level := LevelDebug | LevelInfo | LevelWarn | LevelError.

Record LogRecord := mkLog {
  level : Level;
  message : string;
  fields : list (string * string)
}.

(** One watchdog goroutine: the variables it closes over, and whether it is
    still waiting in its [select] with its timer armed. *)
Record Watchdog := mkWatchdog {
  wdName : string;
  wdStart : Time;
  wdDeadline : Time;
  wdDoneC : nat;
  wdSpan : SpanId;
  wdWaiting : bool
}.

Record World := mkWorld {
  spans : list Span;
  exported : list SpanId;
  clock : Time;
  doneCs : list bool;
  watchdogs : list Watchdog;
  logs : list LogRecord
}.

Definition withSpans (f : list Span -> list Span) (w : World) : World :=
  {| spans := f (spans w); exported := exported w; clock := clock w;
     doneCs := doneCs w; watchdogs := watchdogs w; logs := logs w |}.

Definition withExported (f : list SpanId -> list SpanId) (w : World) : World :=
  {| spans := spans w; exported := f (exported w); clock := clock w;
     doneCs := doneCs w; watchdogs := watchdogs w; logs := logs w |}.

Definition withClock (f : Time -> Time) (w : World) : World :=
  {| spans := spans w; exported := exported w; clock := f (clock w);
     doneCs := doneCs w; watchdogs := watchdogs w; logs := logs w |}.

Definition withDoneCs (f : list bool -> list bool) (w : World) : World :=
  {| spans := spans w; exported := exported w; clock := clock w;
     doneCs := f (doneCs w); watchdogs := watchdogs w; logs := logs w |}.

Definition withWatchdogs (f : list Watchdog -> list Watchdog) (w : World)
  : World :=
  {| spans := spans w; exported := exported w; clock := clock w;
     doneCs := doneCs w; watchdogs := f (watchdogs w); logs := logs w |}.

Definition log (l : Level) (msg : string) (fs : list (string * string))
    (w : World) : World :=
  {| spans := spans w; exported := exported w; clock := clock w;
     doneCs := doneCs w; watchdogs := watchdogs w;
     logs := logs w ++ [ {| level := l; message := msg; fields := fs |} ] |}.

(** *** Span methods, on the span object *)

Definition isRecording (s : Span) : bool :=
  match endTime s with None => true | Some _ => false end.

Definition setStatus (code : Code) (description : string) (s : Span) : Span :=
  if isRecording s then
    if (codeRank code <? codeRank (statusCode s))%nat then s
    else
      {| name := name s; parent := parent s; startTime := startTime s;
         endTime := endTime s; statusCode := code;
         statusDescription :=
           match code with Error => description | _ => "" end;
         attributes := attributes s; events := events s |}
  else s.

(** An attribute replaces the one with the same key, or is appended. *)
Fixpoint setKeyValue (kv : KeyValue) (l : list KeyValue) : list KeyValue :=
  match l with
  | [] => [kv]
  | x :: rest =>
      if String.eqb (Key x) (Key kv) then kv :: rest
      else x :: setKeyValue kv rest
  end.

Definition addAttributes (kvs l : list KeyValue) : list KeyValue :=
  foldl (fun acc kv => setKeyValue kv acc) l kvs.

Definition setAttributes (kvs : list KeyValue) (s : Span) : Span :=
  if isRecording s then
    {| name := name s; parent := parent s; startTime := startTime s;
       endTime := endTime s; statusCode := statusCode s;
       statusDescription := statusDescription s;
       attributes := addAttributes kvs (attributes s); events := events s |}
  else s.

Definition recordError (err : option ErrorValue) (attrs : list KeyValue)
    (withStackTrace : bool) (s : Span) : Span :=
  match err with
  | None => s
  | Some e =>
      if isRecording s then
        {| name := name s; parent := parent s; startTime := startTime s;
           endTime := endTime s; statusCode := statusCode s;
           statusDescription := statusDescription s;
           attributes := attributes s;
           events := events s ++
             [ {| evError := e; evAttributes := attrs;
                  evWithStackTrace := withStackTrace |} ] |}
      else s
  end.

Definition endAt (ts : Time) (s : Span) : Span :=
  if isRecording s then
    {| name := name s; parent := parent s; startTime := startTime s;
       endTime := Some ts; statusCode := statusCode s;
       statusDescription := statusDescription s;
       attributes := attributes s; events := events s |}
  else s.

(** A span that is still open and has not been declared Ok. *)
Definition pending (s : Span) : Prop :=
  isRecording s = true /\ statusCode s <> Ok.

(** *** Span methods, through a handle *)

Definition IsRecording (id : SpanId) (w : World) : bool :=
  match spans w !! id with
  | Some s => isRecording s
  | None => false
  end.

Definition SetStatus (id : SpanId) (code : Code) (description : string)
    (w : World) : World :=
  withSpans (alter (setStatus code description) id) w.

Definition SetAttributes (id : SpanId) (kvs : list KeyValue) (w : World)
  : World :=
  withSpans (alter (setAttributes kvs) id) w.

Definition RecordError (id : SpanId) (err : option ErrorValue)
    (attrs : list KeyValue) (withStackTrace : bool) (w : World) : World :=
  withSpans (alter (recordError err attrs withStackTrace) id) w.

(** [span.End(WithTimestamp(ts))], or [span.End()] when [ts] is [None].  A
    span is handed to the export pipeline at the moment it ends. *)
Definition End (id : SpanId) (ts : option Time) (w : World) : World :=
  if IsRecording id w then
    withExported (fun l => l ++ [id])
      (withSpans (alter (endAt (default (clock w) ts)) id) w)
  else w.

(** The wall clock moves forward between calls. *)
Definition tick (d : Time) (w : World) : World :=
  withClock (fun c => c + Z.max 0 d)%Z w.

Definition emptyWorld : World :=
  {| spans := []; exported := []; clock := 0%Z; doneCs := [];
     watchdogs := []; logs := [] |}.

End Otel.

(** ** tracer_otel.go *)

Module Tracer.
Import SafeMaps Otel.

(** What the Go runtime and the stack cache report at one call of an entry
    point: [stackCache.GetCaller()], [stackCache.GetStackFrames()] (nearest
    frame first), the frames [runtime.Callers(skip, _)] walks, and the text of
    [debug.Stack()]. *)
Record CallSite := mkCallSite {
  GetCaller : Frame;
  GetStackFrames : list Frame;
  runtimeCallers : nat -> list Frame;
  debugStack : string
}.

(** config.go, without the logger handle. *)
Record Config := mkConfig {
  Enabled : bool;
  EnvName : string;
  ServiceName : string;
  ServiceVersion : string;
  ChainID : string;
  CollectorDSN : string;
  CollectorSecureSSL : bool;
  StuckFunctionWatchdog : bool;
  StuckFunctionTimeout : Time
}.

Definition second : Time := 1000000000%Z.
Definition minute : Time := (60 * second)%Z.

Definition orDefault (s dflt : string) : string :=
  if (String.length s =? 0)%nat then dflt else s.

(** [validateConfig]; [None] is the nil pointer. *)
Definition validateConfig (cfg : option Config) : Config :=
  let cfg :=
    default
      {| Enabled := false; EnvName := ""; ServiceName := "";
         ServiceVersion := ""; ChainID := ""; CollectorDSN := "";
         CollectorSecureSSL := false; StuckFunctionWatchdog := false;
         StuckFunctionTimeout := 0%Z |} cfg in
  {| Enabled := Enabled cfg;
     EnvName := orDefault (EnvName cfg) "local";
     ServiceName := orDefault (ServiceName cfg) "unknown";
     ServiceVersion := orDefault (ServiceVersion cfg) "dev";
     ChainID := orDefault (ChainID cfg) "localnet-1337";
     CollectorDSN := CollectorDSN cfg;
     CollectorSecureSSL := CollectorSecureSSL cfg;
     StuckFunctionWatchdog := StuckFunctionWatchdog cfg;
     StuckFunctionTimeout :=
       if (StuckFunctionTimeout cfg <? second)%Z then (5 * minute)%Z
       else StuckFunctionTimeout cfg |}.

(** [otelTracer]; [tracer] tells whether the exporter's tracer handle is
    non-nil. *)
Record otelTracer := mkTracer {
  config : Config;
  callStackOffset : Z;
  tracer : bool
}.

Definition newOtelTracer (cfg : option Config) : otelTracer :=
  {| config := validateConfig cfg; callStackOffset := 0%Z; tracer := true |}.

(** The closure [traceStart] returns, as the variables it captures:
    [doneC], [span], [parentSpans], and [parentSpansEndFn], which is the empty
    function ([None]) or the one that captured [now].  [NilFn] is the nil
    function value, [NoopFn] is [func() {}]. *)
Inductive SpanEnderFn :=
| NilFn
| NoopFn
| EnderFn (doneC : nat) (span : SpanId) (parentSpans : list SpanId)
    (parentSpansEndFn : option Time).

(** A computation on the world that may panic. *)
Definition M (A : Type) : Type := World -> Outcome A * World.

Definition ret {A} (a : A) : M A := fun w => (Return a, w).

Definition bind {A B} (c : M A) (k : A -> M B) : M B :=
  fun w =>
    match c w with
    | (Return a, w') => k a w'
    | (Panic e, w') => (Panic e, w')
    end.

#[global] Instance M_ret : MRet M := @ret.
#[global] Instance M_bind : MBind M := fun A B k c => bind c k.

Definition newline : string := String (Ascii.ascii_of_nat 10) "".
Definition tab : string := String (Ascii.ascii_of_nat 9) "".

(** The loop of [captureErrorStackTrace] over the frames. *)
Fixpoint writeFrames (frames : list Frame) (result : string) : string :=
  match frames with
  | [] => result
  | frame :: rest =>
      let result :=
        if (0 <? String.length result)%nat then result +:+ newline
        else result in
      writeFrames rest
        (result +:+ Function frame +:+ newline +:+ tab +:+ File frame
                +:+ ":" +:+ pretty (Line frame))
  end.

(** [captureErrorStackTrace(skip)], with [maxDepth = 32]. *)
Definition captureErrorStackTrace (cs : CallSite) (skip : nat) : string :=
  let pcs := take 32 (runtimeCallers cs skip) in
  if (length pcs =? 0)%nat then "" else writeFrames pcs "".

(** [anyToOtalAttribute]; dereferencing a typed nil pointer panics. *)
Definition anyToOtalAttribute (k : string) (v : any) : Outcome KeyValue :=
  let kv x := Return {| Key := k; Val := x |} in
  let deref {A} (p : option A) (f : A -> Value) : Outcome KeyValue :=
    match p with
    | Some x => kv (f x)
    | None => Panic nilDereference
    end in
  match v with
  | AnyNil => kv (VString "")
  | AnyString s => kv (VString s)
  | AnyInt z => kv (VInt64 z)
  | AnyInt64 z => kv (VInt64 z)
  | AnyFloat64 f => kv (VFloat64 f)
  | AnyBool b => kv (VBool b)
  | AnyStrings l => kv (VStringSlice l)
  | AnyInts l => kv (VInt64Slice l)
  | AnyInt64s l => kv (VInt64Slice l)
  | AnyFloat64s l => kv (VFloat64Slice l)
  | AnyBools l => kv (VBoolSlice l)
  | AnyPtrString p => deref p VString
  | AnyPtrInt p => deref p VInt64
  | AnyPtrInt64 p => deref p VInt64
  | AnyPtrFloat64 p => deref p VFloat64
  | AnyPtrBool p => deref p VBool
  | AnyPtrStrings p => deref p VStringSlice
  | AnyPtrInts p => deref p VInt64Slice
  | AnyPtrInt64s p => deref p VInt64Slice
  | AnyPtrFloat64s p => deref p VFloat64Slice
  | AnyPtrBools p => deref p VBoolSlice
  | AnyStringer rendered => kv (VString rendered)
  | AnyOther formatted => kv (VString formatted)
  end.

(** [allTags := NewTags().Union(tags...)] followed by the [Range] that
    fills [attributes].  The two sets allocated on the way are garbage
    afterwards, so the heap is only read. *)
Definition mergedAttributes (h : Heap) (tags : list Tags)
  : Outcome (list KeyValue) :=
  let '(t0, h0) := NewTags [] h in
  let '(allTags, h1) := Union t0 tags h0 in
  Range allTags
    (fun k v attributes =>
       match anyToOtalAttribute k v with
       | Return kv => Return (attributes ++ [kv], true)
       | Panic e => Panic e
       end)
    [] h1.

(** [t.tracer.Start(ctx, name, opts...)]: a method call on a nil interface
    panics; otherwise the exporter opens a span, child of the span in [ctx]
    unless [WithNewRoot] is given, started at the given timestamp or now. *)
Definition tracerStart (t : otelTracer) (ctx : Context) (spanName : string)
    (attrs : list KeyValue) (timestamp : option Time) (newRoot : bool)
  : M (Context * SpanId) :=
  fun w =>
    if tracer t then
      let id := length (spans w) in
      (Return (ContextWithSpan ctx id, id),
       withSpans (fun l => l ++
         [ {| name := spanName;
              parent := if newRoot then None else ctxSpan ctx;
              startTime := default (clock w) timestamp;
              endTime := None;
              statusCode := Unset;
              statusDescription := "";
              attributes := addAttributes attrs [];
              events := [] |} ]) w)
    else (Panic nilDereference, w).

Section Engine.

(** [stackcache.FuncName], the shortening of a qualified function name.
    The file that defines it is not among the sources, so the engine is
    parametrised by it. *)
Variable FuncName : string -> string.

(** The loop of [callStackFramesToSpans]: [i] counts down from
    [len(frames) - 2] and stops before [0]. *)
Fixpoint framesLoop (t : otelTracer) (timestamp : Time) (frames : list Frame)
    (attributes : list KeyValue) (i : nat) (ctx : Context)
    (newSpan : option SpanId) (spans : list SpanId)
  : M (Context * list SpanId) :=
  match i with
  | 0 => ret (ctx, spans)
  | S j =>
      match frames !! i with
      | None => fun w => (Panic "index out of range", w)
      | Some frame =>
          if String.eqb (Function frame) "runtime.main"
             || String.eqb (Function frame) "main.main"
          then framesLoop t timestamp frames attributes j ctx newSpan spans
          else
            '(ctx', s) ←
              tracerStart t ctx (FuncName (Function frame)) attributes
                (Some timestamp)
                (match newSpan with None => true | Some _ => false end);
            framesLoop t timestamp frames attributes j ctx' (Some s)
              (spans ++ [s])
      end
  end.

Definition callStackFramesToSpans (t : otelTracer) (timestamp : Time)
    (frames : list Frame) (attributes : list KeyValue)
  : M (Context * list SpanId) :=
  if (length frames <=? 2)%nat then ret (Background, [])
  else
    framesLoop t timestamp frames attributes (length frames - 2) Background
      None [].

(** The goroutine [traceStart] spawns when the watchdog is configured. *)
Definition spawnWatchdog (t : otelTracer) (funcName : string) (doneC : nat)
    (span : SpanId) (w : World) : World :=
  withWatchdogs (fun l => l ++
    [ {| wdName := funcName; wdStart := clock w;
         wdDeadline := (clock w + StuckFunctionTimeout (config t))%Z;
         wdDoneC := doneC; wdSpan := span; wdWaiting := true |} ]) w.

(** [traceStart].  [ctx] is [None] for the nil pointer and otherwise the
    value the pointer refers to; the second component of the result is the
    value found there afterwards. *)
Definition traceStart (t : otelTracer) (cs : CallSite) (h : Heap)
    (ctx : option Context) (funcName : string) (virtualTrace : bool)
    (tags : list Tags) (w : World)
  : Outcome SpanEnderFn * option Context * World :=
  let virtualTrace :=
    match ctx with None => true | Some _ => virtualTrace end in
  let stored (c : Context) : option Context :=
    match ctx with None => None | Some _ => Some c end in
  let ctx0 := default Background ctx in
  match mergedAttributes h tags with
  | Panic e => (Panic e, stored ctx0, w)
  | Return attributes =>
      let now := clock w in
      let virtualSpans : M (Context * list SpanId) :=
        if virtualTrace
        then callStackFramesToSpans t now (GetStackFrames cs) attributes
        else ret (ctx0, []) in
      match virtualSpans w with
      | (Panic e, w1) => (Panic e, stored ctx0, w1)
      | (Return (ctx1, parentSpans), w1) =>
          match tracerStart t ctx1 funcName attributes None false w1 with
          | (Panic e, w2) => (Panic e, stored ctx1, w2)
          | (Return (modifiedContext, span), w2) =>
              let doneC := length (doneCs w2) in
              let w3 := withDoneCs (fun l => l ++ [false]) w2 in
              let w4 :=
                if StuckFunctionWatchdog (config t)
                then spawnWatchdog t funcName doneC span w3
                else w3 in
              (Return
                 (EnderFn doneC span parentSpans
                    (if virtualTrace then Some now else None)),
               stored modifiedContext, w4)
          end
      end
  end.

(** The deferred [recover] of every entry point. *)
Definition recovered (what : string) (cs : CallSite) (r : string) (w : World)
  : World :=
  log LevelError "coretracer: stack trace" [("stack", debugStack cs)]
    (log LevelError
       ("coretracer: " +:+ what +:+ " panicked - this is a bug")
       [("panic", r)] w).

Definition guarded (what : string) (cs : CallSite)
    (r : Outcome SpanEnderFn * option Context * World)
  : SpanEnderFn * option Context * World :=
  match r with
  | (Return f, c, w) => (f, c, w)
  | (Panic e, c, w) => (NilFn, c, recovered what cs e w)
  end.

Definition Trace (t : otelTracer) (cs : CallSite) (h : Heap)
    (ctx : option Context) (tags : list Tags) (w : World)
  : SpanEnderFn * option Context * World :=
  let frame := GetCaller cs in
  let funcName := FuncName (Function frame) in
  guarded "Trace()" cs (traceStart t cs h ctx funcName false tags w).

Definition TraceWithName (t : otelTracer) (cs : CallSite) (h : Heap)
    (ctx : option Context) (name : string) (tags : list Tags) (w : World)
  : SpanEnderFn * option Context * World :=
  guarded "TraceWithName()" cs (traceStart t cs h ctx name false tags w).

Definition Traceless (t : otelTracer) (cs : CallSite) (h : Heap)
    (ctx : option Context) (tags : list Tags) (w : World)
  : SpanEnderFn * option Context * World :=
  let frame := GetCaller cs in
  let funcName := FuncName (Function frame) in
  let w := log LevelDebug "coretracer: Traceless() starts from"
             [("function", funcName)] w in
  guarded "Traceless()" cs (traceStart t cs h ctx funcName true tags w).

Definition TracelessWithName (t : otelTracer) (cs : CallSite) (h : Heap)
    (ctx : option Context) (name : string) (tags : list Tags) (w : World)
  : SpanEnderFn * option Context * World :=
  guarded "TracelessWithName()" cs (traceStart t cs h ctx name true tags w).

(** The tail of [TraceError], from [span.SetStatus] to [span.End()]. *)
Definition errorClose (cs : CallSite) (h : Heap) (span : SpanId)
    (err : string) (tags : list Tags) (isNewSpan : bool) : M unit :=
  fun w =>
    let w := SetStatus span Error err w in
    let tagOpts : Outcome (list KeyValue) :=
      if (0 <? length tags)%nat && negb isNewSpan
      then mergedAttributes h tags
      else Return [] in
    match tagOpts with
    | Panic e => (Panic e, w)
    | Return errorOpts =>
        let stackTrace := captureErrorStackTrace cs 3 in
        let errorOpts :=
          if String.eqb stackTrace "" then errorOpts
          else errorOpts ++
                 [ {| Key := "exception.stacktrace";
                      Val := VString stackTrace |} ] in
        let w := RecordError span (Some (UserError err)) errorOpts false w in
        (Return tt, End span None w)
    end.

(** [TraceError]; [ctx] and [err] are [None] when nil. *)
Definition TraceError (t : otelTracer) (cs : CallSite) (h : Heap)
    (ctx : option Context) (err : option string) (tags : list Tags)
    (w : World) : World :=
  match err with
  | None => log LevelDebug "coretracer: TraceError() called with nil error" [] w
  | Some e =>
      let ctx := default Background ctx in
      let what := "TraceError()" in
      match SpanFromContext ctx with
      | None =>
          let frame := GetCaller cs in
          let funcName := FuncName (Function frame) in
          let w := log LevelDebug "coretracer: TracelessError starts from"
                     [("function", funcName)] w in
          match traceStart t cs h (Some ctx) funcName true tags w with
          | (Panic r, _, w1) => recovered what cs r w1
          | (Return _, ctx', w1) =>
              match SpanFromContext (default Background ctx') with
              | None => recovered what cs nilDereference w1
              | Some span =>
                  match errorClose cs h span e tags true w1 with
                  | (Return _, w2) => w2
                  | (Panic r, w2) => recovered what cs r w2
                  end
              end
          end
      | Some span =>
          if negb (IsRecording span w) then w
          else
            match errorClose cs h span e tags false w with
            | (Return _, w2) => w2
            | (Panic r, w2) => recovered what cs r w2
            end
      end
  end.

Definition WithTags (t : otelTracer) (cs : CallSite) (h : Heap)
    (ctx : Context) (tags : list Tags) (w : World) : World :=
  match SpanFromContext ctx with
  | None =>
      log LevelWarn
        "coretracer: no span found in context - WithTags() with invalid context"
        [] w
  | Some span =>
      match mergedAttributes h tags with
      | Panic r => recovered "WithTags()" cs r w
      | Return attributes => SetAttributes span attributes w
      end
  end.

End Engine.

Definition SetCallStackOffset (t : otelTracer) (offset : Z) : otelTracer :=
  let offset := if (offset <? 0)%Z then 0%Z else offset in
  {| config := config t; callStackOffset := offset; tracer := tracer t |}.

Definition Close (t : otelTracer) : otelTracer :=
  {| config := config t; callStackOffset := callStackOffset t;
     tracer := false |}.

(** [close(doneC)] *)
Definition closeChan (doneC : nat) : M unit :=
  fun w =>
    match doneCs w !! doneC with
    | Some false => (Return tt, withDoneCs (fun l => <[ doneC := true ]> l) w)
    | _ => (Panic closeOfClosed, w)
    end.

(** The loop of [parentSpansEndFn], from index [0] upwards. *)
Fixpoint endLoop (spansToEnd : list SpanId) (now : Time) (w : World) : World :=
  match spansToEnd with
  | [] => w
  | s :: rest => endLoop rest now (End s (Some now) w)
  end.

(** Calling a [SpanEnderFn]. *)
Definition invoke (f : SpanEnderFn) : M unit :=
  fun w =>
    match f with
    | NilFn => (Panic nilDereference, w)
    | NoopFn => (Return tt, w)
    | EnderFn doneC span parentSpans parentSpansEndFn =>
        match closeChan doneC w with
        | (Panic e, w1) => (Panic e, w1)
        | (Return _, w1) =>
            let w2 :=
              if IsRecording span w1
              then End span None (SetStatus span Ok "" w1)
              else w1 in
            (Return tt,
             match parentSpansEndFn with
             | None => w2
             | Some now => endLoop parentSpans now w2
             end)
        end
    end.

Definition setWaiting (b : bool) (g : Watchdog) : Watchdog :=
  {| wdName := wdName g; wdStart := wdStart g; wdDeadline := wdDeadline g;
     wdDoneC := wdDoneC g; wdSpan := wdSpan g; wdWaiting := b |}.

(** The watchdog goroutine [i] takes the [<-doneC] case of its [select]:
    possible once [doneC] is closed.  The deferred [timeout.Stop()] runs. *)
Definition watchdogDone (i : nat) (w : World) : World :=
  match watchdogs w !! i with
  | Some g =>
      if wdWaiting g && default false (doneCs w !! wdDoneC g)
      then withWatchdogs (alter (setWaiting false) i) w
      else w
  | None => w
  end.

(** The watchdog goroutine [i] takes the [<-timeout.C] case: possible once
    the timer has fired.  The deferred [timeout.Stop()] runs. *)
Definition watchdogExpire (i : nat) (w : World) : World :=
  match watchdogs w !! i with
  | Some g =>
      if wdWaiting g && (wdDeadline g <=? clock w)%Z then
        let w := withWatchdogs (alter (setWaiting false) i) w in
        let span := wdSpan g in
        if negb (IsRecording span w) then w
        else
          let err := StuckError (wdName g) (clock w - wdStart g)%Z in
          let w := RecordError span (Some err) [] true w in
          let w := SetAttributes span
                     [ {| Key := "exception.type"; Val := VString "stuck" |} ]
                     w in
          SetStatus span Error "stuck" w
      else w
  | None => w
  end.

End Tracer.

(** ** The global registry (the package-level functions) *)

Module Registry.
Import SafeMaps Otel.

(** The package variables.  [tracer] is [None] while no engine is enabled;
    [exporterShutdownFn] is [None] when nil and otherwise the error the
    shutdown function returns.  The [RWMutex] makes every function below one
    atomic step, which is how they are modelled. *)
Record Globals := mkGlobals {
  tracer : option Tracer.otelTracer;
  exporterShutdownFn : option (option string);
  config : option Tracer.Config
}.

Section Registry.

(** [stackcache.FuncName], as for the engine. *)
Variable FuncName : string -> string.

(** [Enable].  [newOtelTracer] validates the structure [cfg] points to in
    place, so the package variable [config] ends up referring to the
    validated configuration; a nil [cfg] stays nil. *)
Definition Enable (cfg : option Tracer.Config)
    (exporterInitFn : option Tracer.Config -> option (option string))
    (g : Globals) (w : World) : Globals * World :=
  match exporterInitFn cfg with
  | None =>
      ({| tracer := tracer g; exporterShutdownFn := None;
          config := config g |},
       log LevelWarn "coretracer: failed to enable tracer" [] w)
  | Some shutdown =>
      ({| tracer := Some (Tracer.newOtelTracer cfg);
          exporterShutdownFn := Some shutdown;
          config := (fun c => Tracer.validateConfig (Some c)) <$> cfg |}, w)
  end.

(** [exporterShutdownFn(context.Background())] and the report of its error. *)
Definition shutdownExporter (g : Globals) (w : World) : Outcome unit * World :=
  match exporterShutdownFn g with
  | None => (Panic nilDereference, w)
  | Some None => (Return tt, w)
  | Some (Some err) =>
      (Return tt,
       log LevelError "coretracer: failed to shutdown exporter"
         [("error", err)] w)
  end.

Definition Disable (g : Globals) (w : World)
  : Outcome unit * Globals * World :=
  match tracer g with
  | Some t =>
      let g1 := {| tracer := Some (Tracer.Close t);
                   exporterShutdownFn := exporterShutdownFn g;
                   config := config g |} in
      match shutdownExporter g1 w with
      | (Panic e, w1) => (Panic e, g1, w1)
      | (Return _, w1) =>
          (Return tt,
           {| tracer := None; exporterShutdownFn := exporterShutdownFn g;
              config := config g |}, w1)
      end
  | None =>
      (Return tt,
       {| tracer := None; exporterShutdownFn := exporterShutdownFn g;
          config := config g |}, w)
  end.

Definition DefaultTracer (g : Globals) : option Tracer.otelTracer := tracer g.

Definition Trace (g : Globals) (cs : Tracer.CallSite) (h : Heap)
    (ctx : option Context) (tags : list Tags) (w : World)
  : Tracer.SpanEnderFn * option Context * World :=
  match tracer g with
  | None => (Tracer.NoopFn, ctx, w)
  | Some t => Tracer.Trace FuncName t cs h ctx tags w
  end.

Definition TraceWithName (g : Globals) (cs : Tracer.CallSite) (h : Heap)
    (ctx : option Context) (name : string) (tags : list Tags) (w : World)
  : Tracer.SpanEnderFn * option Context * World :=
  match tracer g with
  | None => (Tracer.NoopFn, ctx, w)
  | Some t => Tracer.TraceWithName FuncName t cs h ctx name tags w
  end.

Definition TraceError (g : Globals) (cs : Tracer.CallSite) (h : Heap)
    (ctx : option Context) (err : option string) (tags : list Tags)
    (w : World) : World :=
  match tracer g with
  | None => w
  | Some t => Tracer.TraceError FuncName t cs h ctx err tags w
  end.

Definition Traceless (g : Globals) (cs : Tracer.CallSite) (h : Heap)
    (ctx : option Context) (tags : list Tags) (w : World)
  : Tracer.SpanEnderFn * option Context * World :=
  match tracer g with
  | None => (Tracer.NoopFn, ctx, w)
  | Some t => Tracer.Traceless FuncName t cs h ctx tags w
  end.

Definition TracelessWithName (g : Globals) (cs : Tracer.CallSite) (h : Heap)
    (ctx : option Context) (name : string) (tags : list Tags) (w : World)
  : Tracer.SpanEnderFn * option Context * World :=
  match tracer g with
  | None => (Tracer.NoopFn, ctx, w)
  | Some t => Tracer.TracelessWithName FuncName t cs h ctx name tags w
  end.

Definition WithTags (g : Globals) (cs : Tracer.CallSite) (h : Heap)
    (ctx : Context) (tags : list Tags) (w : World) : World :=
  match tracer g with
  | None => w
  | Some t => Tracer.WithTags t cs h ctx tags w
  end.

End Registry.

Definition SetCallStackOffset (offset : Z) (g : Globals) : Globals :=
  match tracer g with
  | None => g
  | Some t =>
      {| tracer := Some (Tracer.SetCallStackOffset t offset);
         exporterShutdownFn := exporterShutdownFn g;
         config := config g |}
  end.

Definition Close (g : Globals) (w : World) : Outcome unit * Globals * World :=
  match tracer g with
  | None => (Return tt, g, w)
  | Some t =>
      let g1 := {| tracer := None; exporterShutdownFn := exporterShutdownFn g;
                   config := config g |} in
      match shutdownExporter g1 w with
      | (Panic e, w1) => (Panic e, g1, w1)
      | (Return _, w1) => (Return tt, g1, w1)
      end
  end.

End Registry.

(** ** The tombstone ledger

    The marker functions of the revision of the engine that still carries
    them.  Its logger prints lines; [printed] collects them. *)

Module Ledger.
Import Otel.

Definition tombstoneSpanCtxDone (ctx : Context) : Context :=
  {| ctxSpan := ctxSpan ctx; spanDone := true; spanError := spanError ctx;
     spanStuck := spanStuck ctx |}.

Definition tombstoneSpanCtxError (ctx : Context) : Context :=
  {| ctxSpan := ctxSpan ctx; spanDone := spanDone ctx; spanError := true;
     spanStuck := spanStuck ctx |}.

Definition tombstoneSpanCtxStuck (ctx : Context) : Context :=
  {| ctxSpan := ctxSpan ctx; spanDone := spanDone ctx;
     spanError := spanError ctx; spanStuck := true |}.

Definition isTombstoneSpanCtxDone (ctx : Context) : bool := spanDone ctx.
Definition isTombstoneSpanCtxError (ctx : Context) : bool := spanError ctx.
Definition isTombstoneSpanCtxStuck (ctx : Context) : bool := spanStuck ctx.

Definition warnAlreadyDone : string :=
  "[WARN] span context is already tombstoned as done - this is a bug".
Definition warnAlreadyError : string :=
  "[WARN] span context is already tombstoned as error - skipping double tombstoning".

Definition checkAndSetTombstoneSpanCtxDone (ctx : Context)
    (printed : list string) : Context * bool * list string :=
  if isTombstoneSpanCtxError ctx || isTombstoneSpanCtxStuck ctx
  then (ctx, false, printed)
  else (tombstoneSpanCtxDone ctx, true, printed).

Definition checkAndSetTombstoneSpanCtxError (ctx : Context)
    (printed : list string) : Context * bool * list string :=
  if isTombstoneSpanCtxStuck ctx then (ctx, false, printed)
  else if isTombstoneSpanCtxDone ctx
  then (ctx, false, printed ++ [warnAlreadyDone])
  else if isTombstoneSpanCtxError ctx
  then (ctx, false, printed ++ [warnAlreadyError])
  else (tombstoneSpanCtxError ctx, true, printed).

End Ledger.

(** ** The stack cache *)

Module StackCache.

(** Modelled from the spec: [stackcache.go] (the type behind
    [stackcache.New], [GetCaller] and [GetStackFrames]) is not among the
    sources.  The cache is built from [(searchOffset, callerOffset,
    breakpointPackage)]; [callerOffset] clamps negatives to zero. *)
Record stackCache := mkStackCache {
  searchOffset : nat;
  callerOffset : nat;
  breakpointPackage : string
}.

(** Modelled from the spec: [stackcache.New]. *)
Definition New (searchOffset callerOffset : Z) (breakpointPackage : string)
  : stackCache :=
  {| searchOffset := Z.to_nat searchOffset;
     callerOffset := Z.to_nat callerOffset;
     breakpointPackage := breakpointPackage |}.

(** Modelled from the spec: the effective skip of [GetCaller] and
    [GetStackFrames], [searchOffset + callerOffset + 1]. *)
Definition effectiveSkip (c : stackCache) : nat :=
  searchOffset c + callerOffset c + 1.

(** Modelled from the spec: a frame belongs to the breakpoint package when
    its qualified name is prefixed by it. *)
Definition inBreakpointPackage (c : stackCache) (f : Frame) : bool :=
  String.prefix (breakpointPackage c) (Function f).

(** Modelled from the spec: the scan past the leading run of frames of the
    breakpoint package. *)
Fixpoint skipBreakpointRun (c : stackCache) (frames : list Frame)
  : list Frame :=
  match frames with
  | [] => []
  | f :: rest =>
      if inBreakpointPackage c f then skipBreakpointRun c rest
      else f :: rest
  end.

(** Modelled from the spec: [GetStackFrames], on the frames the resolver
    reports above its own entry, nearest first. *)
Definition GetStackFrames (c : stackCache) (stack : list Frame) : list Frame :=
  skipBreakpointRun c (drop (effectiveSkip c) stack).

Definition zeroFrame : Frame := {| Function := ""; File := ""; Line := 0%Z |}.

(** Modelled from the spec: [GetCaller], the first frame past the run, or
    the deepest resolvable frame when the run reaches the stack bottom. *)
Definition GetCaller (c : stackCache) (stack : list Frame) : Frame :=
  let frames := drop (effectiveSkip c) stack in
  match skipBreakpointRun c frames with
  | f :: _ => f
  | [] => default zeroFrame (last frames)
  end.

End StackCache.

(** ** The shape of a synthetic ancestor chain *)

Module Ancestry.
Import Otel Tracer.

(** The frames [callStackFramesToSpans] passes over. *)
Definition isMain (frame : Frame) : bool :=
  String.eqb (Function frame) "runtime.main"
  || String.eqb (Function frame) "main.main".

(** The frames that get a synthetic span, in the order the spans are
    opened: those strictly between the nearest and the bottom-most frame,
    from the bottom up, except [runtime.main] and [main.main]. *)
Definition ancestorFrames (frames : list Frame) : list Frame :=
  List.filter (fun frame => negb (isMain frame))
    (reverse (take (length frames - 2) (tail frames))).

(** A span as the exporter hands it out. *)
Definition freshSpan (spanName : string) (parent : option SpanId)
    (start : Time) (attrs : list KeyValue) : Span :=
  {| name := spanName; parent := parent; startTime := start;
     endTime := None; statusCode := Unset; statusDescription := "";
     attributes := addAttributes attrs []; events := [] |}.

(** Spans opened one after the other from frames, each the child of the one
    before; the first is the child of [prev] and gets the handle [base]. *)
Fixpoint chain (FuncName : string -> string) (start : Time)
    (attrs : list KeyValue) (prev : option SpanId) (base : nat)
    (frames : list Frame) : list Span :=
  match frames with
  | [] => []
  | frame :: rest =>
      freshSpan (FuncName (Function frame)) prev start attrs
      :: chain FuncName start attrs (Some base) (S base) rest
  end.

(** The watchdog goroutine of a call of [traceStart]. *)
Definition watchdogOf (t : otelTracer) (funcName : string) (doneC : nat)
    (span : SpanId) (now : Time) : list Watchdog :=
  if StuckFunctionWatchdog (config t) then
    [ {| wdName := funcName; wdStart := now;
         wdDeadline := (now + StuckFunctionTimeout (config t))%Z;
         wdDoneC := doneC; wdSpan := span; wdWaiting := true |} ]
  else [].

(** A span closed with success at [ts]. *)
Definition closedOk (ts : Time) (s : Span) : Span :=
  {| name := name s; parent := parent s; startTime := startTime s;
     endTime := Some ts; statusCode := Ok; statusDescription := "";
     attributes := attributes s; events := events s |}.

(** The event option [TraceError] builds from its own stack trace. *)
Definition stackTraceOption (cs : CallSite) : list KeyValue :=
  if String.eqb (captureErrorStackTrace cs 3) "" then []
  else [ {| Key := "exception.stacktrace";
            Val := VString (captureErrorStackTrace cs 3) |} ].

(** A span closed with an error at [ts]. *)
Definition closedError (ts : Time) (err : string) (opts : list KeyValue)
    (s : Span) : Span :=
  {| name := name s; parent := parent s; startTime := startTime s;
     endTime := Some ts; statusCode := Error; statusDescription := err;
     attributes := attributes s;
     events := events s ++
       [ {| evError := UserError err; evAttributes := opts;
            evWithStackTrace := false |} ] |}.

(** A span the watchdog has flagged, [elapsed] after the call started. *)
Definition flaggedStuck (funcName : string) (elapsed : Time) (s : Span) : Span :=
  {| name := name s; parent := parent s; startTime := startTime s;
     endTime := endTime s; statusCode := Error; statusDescription := "stuck";
     attributes :=
       addAttributes
         [ {| Key := "exception.type"; Val := VString "stuck" |} ]
         (attributes s);
     events := events s ++
       [ {| evError := StuckError funcName elapsed; evAttributes := [];
            evWithStackTrace := true |} ] |}.

(** The context that carries the last span of a chain of [n] spans. *)
Definition chainContext (ctx : Context) (base n : nat) : Context :=
  match n with
  | 0 => ctx
  | S k => ContextWithSpan ctx (base + k)
  end.

End Ancestry.

(** ** Completion attempts on one traced call *)

Module Lifecycle.
Import SafeMaps Otel Tracer.

(** What may happen, in any order, after [traceStart] has returned: the
    caller invokes the completion function, somebody calls [TraceError] on
    the context, a watchdog goroutine takes one of the two cases of its
    [select], or time passes.  Each of them is one step; an ordering is a
    list of steps. *)
Inductive Attempt :=
| Complete
| ErrorOn (cs : CallSite) (err : option string) (tags : list Tags)
| Expire (i : nat)
| Signal (i : nat)
| Elapse (d : Time).

Section Lifecycle.

Variable FuncName : string -> string.
Variable t : otelTracer.
Variable h : Heap.
(** The completion function and the context [traceStart] handed back. *)
Variable f : SpanEnderFn.
Variable ctx : Context.

Definition attempt (a : Attempt) (w : World) : Outcome unit * World :=
  match a with
  | Complete => invoke f w
  | ErrorOn cs err tags =>
      (Return tt, TraceError FuncName t cs h (Some ctx) err tags w)
  | Expire i => (Return tt, watchdogExpire i w)
  | Signal i => (Return tt, watchdogDone i w)
  | Elapse d => (Return tt, tick d w)
  end.

(** A panic of the completion function reaches its caller: the run stops. *)
Fixpoint attempts (l : list Attempt) (w : World) : Outcome unit * World :=
  match l with
  | [] => (Return tt, w)
  | a :: rest =>
      match attempt a w with
      | (Return _, w') => attempts rest w'
      | (Panic e, w') => (Panic e, w')
      end
  end.

(** The attempts that reach their [span.End()]: the completion function,
    and a [TraceError] with a non-nil error whose tags convert. *)
Definition closes (a : Attempt) : bool :=
  match a with
  | Complete => true
  | ErrorOn _ (Some _) tags =>
      if (0 <? length tags)%nat then
        match mergedAttributes h tags with
        | Return _ => true
        | Panic _ => false
        end
      else true
  | _ => false
  end.

(** The status an attempt that closes asks for. *)
Definition verdict (a : Attempt) : Code * string :=
  match a with
  | ErrorOn _ (Some e) _ => (Error, e)
  | _ => (Ok, "")
  end.

End Lifecycle.

(** A step from [w] to [w'] leaves the span [sid] as it is if it has
    ended. *)
Definition keeps (sid : SpanId) (w w' : World) : Prop :=
  forall s, spans w !! sid = Some s -> isRecording s = false ->
            spans w' !! sid = Some s.

(** The span [sid] is pending and the channel [doneC] is open. *)
Definition ready (sid : SpanId) (doneC : nat) (w : World) : Prop :=
  (exists s, spans w !! sid = Some s /\ pending s)
  /\ doneCs w !! doneC = Some false.

End Lifecycle.

(** ** Concrete inputs used by the examples *)

Module Samples.
Import SafeMaps Otel Tracer.

Definition sampleHeap : Heap :=
  {| nextMux := 1; mapObjs := [ {[ "svc" := AnyString "myService" ]} ] |}.

Definition sampleTags : Tags := {| mux := Some 0; m := Some 0 |}.

Definition frameOf (function : string) : Frame :=
  {| Function := function; File := "main.go"; Line := 42%Z |}.

(** [f] calls [g] calls [h], [f] being called from [main.main]; seen from
    inside [h]. *)
Definition stackFGH : list Frame :=
  [ frameOf "main.h"; frameOf "main.g"; frameOf "main.f";
    frameOf "main.main"; frameOf "runtime.main" ].

Definition siteFGH : CallSite :=
  {| GetCaller := frameOf "main.h";
     GetStackFrames := stackFGH;
     runtimeCallers := fun skip => drop (skip - 3) stackFGH;
     debugStack := "goroutine 1 [running]" |}.

(** The same calls under [go test]: the test function [TestTrace] calls
    [f], and [testing.tRunner] is the bottom-most frame. *)
Definition stackTest : list Frame :=
  [ frameOf "example.h"; frameOf "example.g"; frameOf "example.f";
    frameOf "example.TestTrace"; frameOf "testing.tRunner" ].

Definition siteTest : CallSite :=
  {| GetCaller := frameOf "example.h";
     GetStackFrames := stackTest;
     runtimeCallers := fun skip => drop (skip - 3) stackTest;
     debugStack := "goroutine 7 [running]" |}.

Definition sampleConfig (watchdog : bool) : Config :=
  {| Enabled := true; EnvName := "dev"; ServiceName := "example";
     ServiceVersion := "1.0.0"; ChainID := ""; CollectorDSN := "localhost:4317";
     CollectorSecureSSL := false; StuckFunctionWatchdog := watchdog;
     StuckFunctionTimeout := second |}.

Definition sampleTracer (watchdog : bool) : otelTracer :=
  newOtelTracer (Some (sampleConfig watchdog)).

(** A stand-in for [stackcache.FuncName] where a closed term is needed: it
    keeps the qualified name. *)
Definition qualifiedName (function : string) : string := function.

(** What [TraceWithName(&ctx, "work")] hands back in the empty world, with
    the watchdog on. *)
Definition workEnder : SpanEnderFn := EnderFn 0 0 [] None.

Definition workContext : Context := ContextWithSpan Background 0.

Definition workWorld : World :=
  {| spans := [Ancestry.freshSpan "work" None 0%Z []];
     exported := [];
     clock := 0%Z;
     doneCs := [false];
     watchdogs :=
       [ {| wdName := "work"; wdStart := 0%Z; wdDeadline := second;
            wdDoneC := 0; wdSpan := 0; wdWaiting := true |} ];
     logs := [] |}.

(** A world in which the span [0] has already ended. *)
Definition endedWorld : World :=
  {| spans := [Ancestry.closedOk 5%Z (Ancestry.freshSpan "work" None 0%Z [])];
     exported := [0];
     clock := 7%Z;
     doneCs := [true];
     watchdogs := [];
     logs := [] |}.

(** A stack cache whose breakpoint package is a wrapper package, and a
    stack in which a frame of that package reappears below a frame of user
    code. *)
Definition wrapPackage : string :=
  "github.com/InjectiveLabs/coretracer/stackcache/internal/testingwrap".

Definition wrapCache : StackCache.stackCache :=
  StackCache.New 0 0 wrapPackage.

Definition deeperFrames : list Frame :=
  [ frameOf "runtime.gopanic";
    frameOf (wrapPackage +:+ ".WrapCall");
    frameOf "stackcache.TestUseful.func1";
    frameOf "testing.tRunner" ].

Definition wrappedStack : list Frame :=
  frameOf "github.com/InjectiveLabs/coretracer/stackcache.(*stackCache).GetStackFrames"
  :: frameOf (wrapPackage +:+ ".GetStackFrames")
  :: frameOf "stackcache.TestUseful.func1.1"
  :: deeperFrames.

Definition disabled : Registry.Globals :=
  {| Registry.tracer := None; Registry.exporterShutdownFn := None;
     Registry.config := None |}.

End Samples.

(** ** config.go: the global tags, and [Tags.WithGlobalTags] *)

Module GlobalTags.
Import SafeMaps Tracer.

(** [DefaultConfig] *)
Definition DefaultConfig : Config := validateConfig None.

(** [globalTags[key] = value] when [value] is not empty. *)
Definition setIfPresent (key value : string) (globalTags : gmap string string)
  : gmap string string :=
  if (0 <? String.length value)%nat then <[ key := value ]> globalTags
  else globalTags.

(** [Config.GlobalTagsMap]; [None] is the nil receiver. *)
Definition GlobalTagsMap (c : option Config) : gmap string string :=
  let c := match c with None => DefaultConfig | Some c => c end in
  setIfPresent "service.version" (ServiceVersion c)
    (setIfPresent "service.name" (ServiceName c)
       (setIfPresent "deployment.chain_id" (ChainID c)
          (setIfPresent "deployment.environment" (EnvName c) ∅))).

(** [Tags.WithGlobalTags]; [config] is the value of the package variable.
    The new set is allocated and filled with the global tags before the
    receiver's lock is touched. *)
Definition WithGlobalTags (config : option Config) (t : Tags) (h : Heap)
  : Outcome Tags * Heap :=
  let globalTags := GlobalTagsMap config in
  let dst := length (mapObjs h) in
  let '(allTags, h1) := newSafeMap h in
  let h2 := rangeCopy (AnyString <$> globalTags) dst h1 in
  match mux t with
  | None => (Panic nilDereference, h2)
  | Some _ => (Return allTags, rangeCopy (deref h2 (m t)) dst h2)
  end.

End GlobalTags.

(** ** What the exporter has been handed *)

Module Pipeline.
Import Otel.

(** The export pipeline holds every span that has ended, once, and no span
    that is still open. *)
Definition consistent (w : World) : Prop :=
  NoDup (exported w)
  /\ forall id : SpanId,
       id ∈ exported w
       <-> exists s, spans w !! id = Some s /\ isRecording s = false.

End Pipeline.

(** ** The text of an error's stack trace *)

Module StackTrace.
Import Tracer.

(** What [captureErrorStackTrace] writes for one frame: the function, and
    on the next line, after a tab, the file and the line number. *)
Definition frameText (frame : Frame) : string :=
  Function frame +:+ newline +:+ tab +:+ File frame +:+ ":"
    +:+ pretty (Line frame).

End StackTrace.

(** * Theorems *)

Module SafeMapsFacts.
Import SafeMaps Samples.

Lemma copyInto_union (src dst : gmap string any) : copyInto src dst = src ∪ dst.
Proof.
  unfold copyInto.
  induction src as [|k v src Hk Hfold IH] using map_first_key_ind.
  - rewrite map_fold_empty. by rewrite (left_id_L ∅ (∪)).
  - rewrite map_fold_insert_first_key by done.
    rewrite IH. by rewrite insert_union_l.
Qed.

Lemma rangeCopy_fresh (n : nat) (objs : list (gmap string any))
    (src acc : gmap string any) :
  rangeCopy src (length objs) {| nextMux := n; mapObjs := objs ++ [acc] |}
  = {| nextMux := n; mapObjs := objs ++ [src ∪ acc] |}.
Proof.
  unfold rangeCopy; simpl. f_equal.
  rewrite alter_app_r_alt by lia.
  replace (length objs - length objs) with 0 by lia.
  simpl. by rewrite copyInto_union.
Qed.

(** The loop of [Union] only ever touches the object it fills. *)
Lemma unionLoop_fresh (tags : list Tags) :
  forall (n : nat) (objs : list (gmap string any)) (acc : gmap string any),
    Forall (allocated {| nextMux := n; mapObjs := objs |}) tags ->
    unionLoop (length objs) tags {| nextMux := S n; mapObjs := objs ++ [acc] |}
    = {| nextMux := S n;
         mapObjs := objs ++
           [foldl (fun a tg => view {| nextMux := n; mapObjs := objs |} tg ∪ a)
                  acc tags] |}.
Proof.
  induction tags as [|tg tags IH]; intros n objs acc Hall; [done|].
  inversion Hall as [|? ? Htg Hrest]; subst.
  simpl. unfold view, IsValid. destruct (mux tg) as [mu|] eqn:Hmux.
  - assert (Hd : deref {| nextMux := S n; mapObjs := objs ++ [acc] |} (m tg)
               = deref {| nextMux := n; mapObjs := objs |} (m tg)).
    { unfold allocated in Htg. unfold deref.
      destruct (m tg) as [i|]; simpl in *; [|done]. by rewrite lookup_app_l. }
    rewrite Hd, rangeCopy_fresh. by apply IH.
  - rewrite (left_id_L ∅ (∪)). by apply IH.
Qed.

Lemma Union_fresh (t : Tags) (tags : list Tags) (h : Heap) :
  allocated h t -> Forall (allocated h) tags ->
  Union t tags h
  = ({| mux := Some (nextMux h); m := Some (length (mapObjs h)) |},
     {| nextMux := S (nextMux h);
        mapObjs := mapObjs h ++
          [foldl (fun a tg => view h tg ∪ a) (view h t) tags] |}).
Proof.
  destruct h as [n objs]. intros Ht Htags.
  unfold Union, newSafeMap, allocMap; simpl. f_equal.
  unfold view, IsValid. destruct (mux t) as [mu|] eqn:Hmux.
  - assert (Hd : deref {| nextMux := S n; mapObjs := objs ++ [∅] |} (m t)
               = deref {| nextMux := n; mapObjs := objs |} (m t)).
    { unfold allocated in Ht. unfold deref.
      destruct (m t) as [i|]; simpl in *; [|done]. by rewrite lookup_app_l. }
    rewrite Hd, rangeCopy_fresh, (right_id_L ∅ (∪)).
    by apply unionLoop_fresh.
  - by apply unionLoop_fresh.
Qed.

Lemma foldl_union_skip_zero (h : Heap) (tags : list Tags) :
  forall acc : gmap string any,
    foldl (fun a tg => view h tg ∪ a) acc (List.filter IsValid tags)
    = foldl (fun a tg => view h tg ∪ a) acc tags.
Proof.
  induction tags as [|tg tags IH]; intros acc; [done|].
  simpl. destruct (IsValid tg) eqn:Hv; simpl.
  - apply IH.
  - assert (Hz : view h tg = ∅) by (unfold view; by rewrite Hv).
    rewrite Hz, (left_id_L ∅ (∪)). apply IH.
Qed.

Lemma allocated_filter (h : Heap) (tags : list Tags) :
  Forall (allocated h) tags -> Forall (allocated h) (List.filter IsValid tags).
Proof.
  induction 1 as [|tg tags Htg Hall IH]; simpl; [constructor|].
  destruct (IsValid tg); [by constructor | done].
Qed.

Lemma view_app_l (n n' : nat) (objs extra : list (gmap string any)) (t : Tags) :
  allocated {| nextMux := n; mapObjs := objs |} t ->
  view {| nextMux := n'; mapObjs := objs ++ extra |} t
  = view {| nextMux := n; mapObjs := objs |} t.
Proof.
  intros Ht. unfold view. destruct (IsValid t); [|done].
  unfold allocated in Ht. unfold deref.
  destruct (m t) as [i|]; simpl in *; [|done]. by rewrite lookup_app_l.
Qed.



End SafeMapsFacts.

Module RegistryFacts.
Import SafeMaps Otel Samples.

(** C9. While the registry holds no engine, every package-level entry point
    is a no-op: [Trace], [TraceWithName], [Traceless] and [TracelessWithName]
    return a completion function that does nothing and leave the context and
    the world as they are; [TraceError], [WithTags], [SetCallStackOffset] and
    [Close] return without any effect. *)
Theorem disabled_entry_points_do_nothing (FuncName : string -> string)
    (g : Registry.Globals) (cs : Tracer.CallSite) (h : Heap)
    (ctx : option Context) (c : Context) (name : string)
    (err : option string) (tags : list Tags) (offset : Z) (w : World) :
  Registry.tracer g = None ->
  Registry.Trace FuncName g cs h ctx tags w = (Tracer.NoopFn, ctx, w)
  /\ Registry.TraceWithName FuncName g cs h ctx name tags w
     = (Tracer.NoopFn, ctx, w)
  /\ Registry.Traceless FuncName g cs h ctx tags w = (Tracer.NoopFn, ctx, w)
  /\ Registry.TracelessWithName FuncName g cs h ctx name tags w
     = (Tracer.NoopFn, ctx, w)
  /\ (forall w' : World, Tracer.invoke Tracer.NoopFn w' = (Return tt, w'))
  /\ Registry.TraceError FuncName g cs h ctx err tags w = w
  /\ Registry.WithTags g cs h c tags w = w
  /\ Registry.SetCallStackOffset offset g = g
  /\ Registry.Close g w = (Return tt, g, w).
Proof.
  intros Hnil.
  unfold Registry.Trace, Registry.TraceWithName, Registry.Traceless,
    Registry.TracelessWithName, Registry.TraceError, Registry.WithTags,
    Registry.SetCallStackOffset, Registry.Close.
  rewrite Hnil. repeat split.
Qed.

Lemma disabled_entry_points_do_nothing_witness :
  Registry.tracer disabled = None
  /\ Registry.Trace qualifiedName disabled siteFGH sampleHeap
       (Some Background) [sampleTags] emptyWorld
     = (Tracer.NoopFn, Some Background, emptyWorld).
Proof.
  split; [reflexivity|].
  exact (proj1 (disabled_entry_points_do_nothing qualifiedName disabled
    siteFGH sampleHeap (Some Background) Background "name" None [sampleTags]
    0%Z emptyWorld eq_refl)).
Defined.

End RegistryFacts.

Module LedgerFacts.
Import Otel Ledger.

(** The two check functions, on every combination of markers. *)
Lemma ledger_checks (s : option SpanId) (done error : bool)
    (printed : list string) :
  let stuck := {| ctxSpan := s; spanDone := done; spanError := error;
                  spanStuck := true |} in
  let doneMarked := {| ctxSpan := s; spanDone := true; spanError := error;
                       spanStuck := false |} in
  let errorMarked := {| ctxSpan := s; spanDone := false; spanError := true;
                        spanStuck := false |} in
  let clean := {| ctxSpan := s; spanDone := false; spanError := false;
                  spanStuck := false |} in
  checkAndSetTombstoneSpanCtxDone stuck printed = (stuck, false, printed)
  /\ checkAndSetTombstoneSpanCtxError stuck printed = (stuck, false, printed)
  /\ checkAndSetTombstoneSpanCtxError doneMarked printed
     = (doneMarked, false, printed ++ [warnAlreadyDone])
  /\ checkAndSetTombstoneSpanCtxError errorMarked printed
     = (errorMarked, false, printed ++ [warnAlreadyError])
  /\ checkAndSetTombstoneSpanCtxDone errorMarked printed
     = (errorMarked, false, printed)
  /\ checkAndSetTombstoneSpanCtxDone clean printed
     = (tombstoneSpanCtxDone clean, true, printed)
  /\ checkAndSetTombstoneSpanCtxError clean printed
     = (tombstoneSpanCtxError clean, true, printed).
Proof.
  simpl. unfold checkAndSetTombstoneSpanCtxDone,
    checkAndSetTombstoneSpanCtxError; simpl.
  destruct done, error; repeat split.
Qed.

End LedgerFacts.

Module SpanFacts.
Import Otel.

Lemma setStatus_ended c d s : isRecording s = false -> setStatus c d s = s.
Proof. intros H. unfold setStatus. by rewrite H. Qed.

Lemma setAttributes_ended kvs s :
  isRecording s = false -> setAttributes kvs s = s.
Proof. intros H. unfold setAttributes. by rewrite H. Qed.

Lemma recordError_ended e attrs st s :
  isRecording s = false -> recordError e attrs st s = s.
Proof. intros H. unfold recordError. destruct e; [|done]. by rewrite H. Qed.

Lemma endAt_ended ts s : isRecording s = false -> endAt ts s = s.
Proof. intros H. unfold endAt. by rewrite H. Qed.

Lemma setStatus_Error_pending d s : pending s -> pending (setStatus Error d s).
Proof.
  intros [Hrec Hok]. unfold setStatus. rewrite Hrec.
  destruct (codeRank Error <? codeRank (statusCode s))%nat; [done|].
  split; [exact Hrec | done].
Qed.

Lemma setAttributes_pending kvs s : pending s -> pending (setAttributes kvs s).
Proof.
  intros [Hrec Hok]. unfold setAttributes. rewrite Hrec. by split.
Qed.

Lemma recordError_pending e attrs st s :
  pending s -> pending (recordError e attrs st s).
Proof.
  intros [Hrec Hok]. unfold recordError. destruct e; [|done].
  rewrite Hrec. by split.
Qed.

(** On a pending span a status of code [Error] or [Ok] always lands. *)
Lemma setStatus_lands c d s :
  pending s -> c <> Unset ->
  setStatus c d s
  = {| name := name s; parent := parent s; startTime := startTime s;
       endTime := endTime s; statusCode := c;
       statusDescription := match c with Error => d | _ => "" end;
       attributes := attributes s; events := events s |}.
Proof.
  intros [Hrec Hok] Hc. unfold setStatus. rewrite Hrec.
  destruct c, (statusCode s); simpl; congruence.
Qed.

Lemma alter_keeps {A} (g : A -> A) (j i : nat) (l : list A) (x : A) :
  l !! i = Some x -> g x = x -> alter g j l !! i = Some x.
Proof.
  intros Hl Hg. rewrite list_lookup_alter. case_decide; [|done].
  subst. by rewrite Hl; simpl; rewrite Hg.
Qed.

Lemma alter_invariant {A} (P : A -> Prop) (g : A -> A) (j i : nat)
    (l : list A) :
  (forall x, P x -> P (g x)) ->
  (exists x, l !! i = Some x /\ P x) ->
  exists x, alter g j l !! i = Some x /\ P x.
Proof.
  intros Hg [x [Hl HP]]. rewrite list_lookup_alter. case_decide.
  - subst. rewrite Hl. simpl. eauto.
  - eauto.
Qed.

End SpanFacts.

Module LifecycleFacts.
Import SafeMaps Otel Tracer Lifecycle SpanFacts.

Lemma spans_SetStatus j c d w :
  spans (SetStatus j c d w) = alter (setStatus c d) j (spans w).
Proof. done. Qed.

Lemma spans_RecordError j e attrs st w :
  spans (RecordError j e attrs st w)
  = alter (recordError e attrs st) j (spans w).
Proof. done. Qed.

Lemma End_recording j ts w :
  IsRecording j w = true ->
  spans (End j ts w) = alter (endAt (default (clock w) ts)) j (spans w)
  /\ exported (End j ts w) = exported w ++ [j]
  /\ clock (End j ts w) = clock w
  /\ doneCs (End j ts w) = doneCs w
  /\ watchdogs (End j ts w) = watchdogs w
  /\ logs (End j ts w) = logs w.
Proof. intros H. unfold End. rewrite H. by repeat split. Qed.

Lemma IsRecording_lookup id w s :
  spans w !! id = Some s -> IsRecording id w = isRecording s.
Proof. intros H. unfold IsRecording. by rewrite H. Qed.

Section OneSpan.

Variable sid : SpanId.

Local Abbreviation keeps := (Lifecycle.keeps sid).
Local Abbreviation ready := (Lifecycle.ready sid).

Lemma keeps_refl w : keeps w w.
Proof. by intros s. Qed.

Lemma keeps_trans w1 w2 w3 : keeps w1 w2 -> keeps w2 w3 -> keeps w1 w3.
Proof. intros H12 H23 s Hs Hc. apply H23; [by apply H12 | done]. Qed.

Lemma keeps_same_spans w w' : spans w' = spans w -> keeps w w'.
Proof. intros Heq s Hs _. by rewrite Heq. Qed.

Lemma keeps_SetStatus j c d w : keeps w (SetStatus j c d w).
Proof.
  intros s Hs Hc. simpl. apply alter_keeps; [done|]. by apply setStatus_ended.
Qed.

Lemma keeps_SetAttributes j kvs w : keeps w (SetAttributes j kvs w).
Proof.
  intros s Hs Hc. simpl. apply alter_keeps; [done|].
  by apply setAttributes_ended.
Qed.

Lemma keeps_RecordError j e attrs st w : keeps w (RecordError j e attrs st w).
Proof.
  intros s Hs Hc. simpl. apply alter_keeps; [done|].
  by apply recordError_ended.
Qed.

Lemma keeps_End j ts w : keeps w (End j ts w).
Proof.
  intros s Hs Hc. unfold End. destruct (IsRecording j w); [|done].
  simpl. apply alter_keeps; [done|]. by apply endAt_ended.
Qed.

Lemma keeps_endLoop l now : forall w, keeps w (endLoop l now w).
Proof.
  induction l as [|j l IH]; intros w; simpl; [apply keeps_refl|].
  eapply keeps_trans; [apply keeps_End | apply IH].
Qed.

Lemma keeps_watchdogExpire i w : keeps w (watchdogExpire i w).
Proof.
  unfold watchdogExpire. destruct (watchdogs w !! i) as [g|]; [|apply keeps_refl].
  destruct (wdWaiting g && (wdDeadline g <=? clock w)%Z); [|apply keeps_refl].
  match goal with |- context [negb ?b] => destruct b end; simpl.
  - eapply keeps_trans; [|apply keeps_SetStatus].
    eapply keeps_trans; [|apply keeps_SetAttributes].
    eapply keeps_trans; [|apply keeps_RecordError].
    by apply keeps_same_spans.
  - by apply keeps_same_spans.
Qed.

Lemma keeps_watchdogDone i w : keeps w (watchdogDone i w).
Proof.
  unfold watchdogDone. destruct (watchdogs w !! i) as [g|]; [|apply keeps_refl].
  destruct (_ && _); [by apply keeps_same_spans | apply keeps_refl].
Qed.

Lemma ready_alter doneC (g : Span -> Span) j w w' :
  (forall x, pending x -> pending (g x)) ->
  spans w' = alter g j (spans w) -> doneCs w' = doneCs w ->
  ready doneC w -> ready doneC w'.
Proof.
  intros Hg Hs Hd [Hp Hc]. split; [|by rewrite Hd].
  rewrite Hs. by apply alter_invariant.
Qed.

Lemma ready_same doneC w w' :
  spans w' = spans w -> doneCs w' = doneCs w -> ready doneC w -> ready doneC w'.
Proof. intros Hs Hd [Hp Hc]. split; [by rewrite Hs | by rewrite Hd]. Qed.

Lemma ready_watchdogExpire doneC i w :
  ready doneC w -> ready doneC (watchdogExpire i w).
Proof.
  intros Hr. unfold watchdogExpire.
  destruct (watchdogs w !! i) as [g|]; [|done].
  destruct (wdWaiting g && (wdDeadline g <=? clock w)%Z); [|done].
  match goal with |- context [negb ?b] => destruct b end; simpl.
  - eapply (ready_alter doneC (setStatus Error "stuck") (wdSpan g));
      [apply setStatus_Error_pending | reflexivity | reflexivity |].
    eapply (ready_alter doneC _ (wdSpan g));
      [apply setAttributes_pending | reflexivity | reflexivity |].
    eapply (ready_alter doneC _ (wdSpan g));
      [apply recordError_pending | reflexivity | reflexivity |].
    by apply (ready_same doneC w).
  - by apply (ready_same doneC w).
Qed.

Lemma ready_watchdogDone doneC i w :
  ready doneC w -> ready doneC (watchdogDone i w).
Proof.
  intros Hr. unfold watchdogDone.
  destruct (watchdogs w !! i) as [g|]; [|done].
  destruct (_ && _); [|done]. by apply (ready_same doneC w).
Qed.

Variable FuncName : string -> string.
Variable t : otelTracer.
Variable h : Heap.
Variable doneC : nat.
Variable parentSpans : list SpanId.
Variable parentSpansEndFn : option Time.
Variable ctx : Context.
Hypothesis ctx_span : SpanFromContext ctx = Some sid.

Let f : SpanEnderFn := EnderFn doneC sid parentSpans parentSpansEndFn.
Let attempt := Lifecycle.attempt FuncName t h f ctx.
Let attempts := Lifecycle.attempts FuncName t h f ctx.

Lemma attempt_keeps a w : keeps w (attempt a w).2.
Proof.
  destruct a as [|cs err tags|i|i|d]; simpl.
  - unfold invoke, closeChan.
    destruct (doneCs w !! doneC) as [[|]|]; simpl; try apply keeps_refl.
    intros s Hs Hc.
    assert (Hrec : IsRecording sid (withDoneCs (fun l => <[doneC:=true]> l) w)
                   = false).
    { unfold IsRecording. simpl. by rewrite Hs. }
    rewrite Hrec. destruct parentSpansEndFn as [now|]; [|done].
    by apply keeps_endLoop.
  - unfold TraceError. destruct err as [e|]; [|by apply keeps_same_spans].
    simpl. rewrite ctx_span. intros s Hs Hc.
    by rewrite (IsRecording_lookup _ _ _ Hs), Hc.
  - apply keeps_watchdogExpire.
  - apply keeps_watchdogDone.
  - by apply keeps_same_spans.
Qed.

Lemma attempts_keep l : forall w, keeps w (attempts l w).2.
Proof.
  induction l as [|a l IH]; intros w; simpl; [apply keeps_refl|].
  pose proof (attempt_keeps a w) as Ha. fold attempt.
  destruct (attempt a w) as [[[]|e] w']; simpl in *; [|done].
  eapply keeps_trans; [exact Ha | apply IH].
Qed.

Lemma attempt_open a w :
  ready doneC w -> closes h a = false ->
  exists w', attempt a w = (Return tt, w') /\ ready doneC w'.
Proof.
  intros Hr Hcl. destruct a as [|cs err tags|i|i|d]; simpl in *; [done|..].
  - eexists; split; [reflexivity|].
    unfold TraceError. destruct err as [e|]; [|by apply (ready_same doneC w)].
    simpl. rewrite ctx_span.
    destruct Hr as [[s [Hs [Hrec Hok]]] Hc].
    rewrite (IsRecording_lookup _ _ _ Hs), Hrec. simpl.
    unfold errorClose.
    destruct (0 <? length tags)%nat; [|done]. simpl.
    destruct (mergedAttributes h tags) as [attrs|r]; [done|].
    apply (ready_same doneC (SetStatus sid Error e w)); [done|done|].
    eapply (ready_alter doneC (setStatus Error e) sid w);
      [apply setStatus_Error_pending | reflexivity | reflexivity |].
    split; [|done]. exists s. by repeat split.
  - eexists; split; [reflexivity|]. by apply ready_watchdogExpire.
  - eexists; split; [reflexivity|]. by apply ready_watchdogDone.
  - eexists; split; [reflexivity|]. by apply (ready_same doneC w).
Qed.

Lemma attempts_open l : forall w,
  ready doneC w -> forallb (fun a => negb (closes h a)) l = true ->
  exists w', attempts l w = (Return tt, w') /\ ready doneC w'.
Proof.
  induction l as [|a l IH]; intros w Hr Hl; simpl in *; [eauto|].
  apply andb_true_iff in Hl as [Ha Hl]. apply negb_true_iff in Ha.
  destruct (attempt_open a w Hr Ha) as [w' [Hstep Hr']].
  fold attempt. rewrite Hstep. by apply IH.
Qed.

Lemma attempt_close a w :
  ready doneC w -> closes h a = true ->
  exists w' s,
    attempt a w = (Return tt, w')
    /\ spans w' !! sid = Some s
    /\ endTime s = Some (clock w')
    /\ (statusCode s, statusDescription s) = verdict a.
Proof.
  intros [[s [Hs Hp]] Hc] Hcl.
  destruct a as [|cs err tags|i|i|d]; simpl in *; try done.
  - unfold invoke, closeChan. rewrite Hc.
    set (w1 := withDoneCs (fun l => <[doneC:=true]> l) w).
    assert (Hs1 : spans w1 !! sid = Some s) by done.
    rewrite (IsRecording_lookup _ _ _ Hs1), (proj1 Hp).
    set (s1 := setStatus Ok "" s).
    assert (Hs2 : spans (SetStatus sid Ok "" w1) !! sid = Some s1).
    { by rewrite spans_SetStatus, list_lookup_alter_eq, Hs1. }
    assert (Hs1' : s1 = {| name := name s; parent := parent s;
        startTime := startTime s; endTime := endTime s; statusCode := Ok;
        statusDescription := ""; attributes := attributes s;
        events := events s |}) by (by apply setStatus_lands).
    assert (Hrec1 : isRecording s1 = true)
      by (rewrite Hs1'; exact (proj1 Hp)).
    set (w3 := End sid None (SetStatus sid Ok "" w1)).
    assert (Hs3 : spans w3 !! sid = Some (endAt (clock w) s1)).
    { unfold w3.
      rewrite (proj1 (End_recording sid None _
        (eq_trans (IsRecording_lookup _ _ _ Hs2) Hrec1))).
      by rewrite list_lookup_alter_eq, Hs2. }
    assert (Hended : isRecording (endAt (clock w) s1) = false).
    { unfold endAt. by rewrite Hrec1. }
    assert (Hclock : forall l now w', clock (endLoop l now w') = clock w').
    { induction l as [|j l IH]; intros now w'; simpl; [done|].
      rewrite IH. unfold End. by destruct (IsRecording j w'). }
    assert (Hclock3 : clock w3 = clock w).
    { unfold w3, End. by destruct (IsRecording sid _). }
    eexists _, (endAt (clock w) s1). split; [reflexivity|].
    split; [|split].
    + destruct parentSpansEndFn as [now|]; [|exact Hs3].
      by apply keeps_endLoop.
    + unfold endAt at 1. rewrite Hrec1. simpl.
      destruct parentSpansEndFn as [now|]; by rewrite ?Hclock, Hclock3.
    + unfold endAt. rewrite Hrec1. simpl. by rewrite Hs1'.
  - destruct err as [e|]; [|done].
    unfold TraceError. simpl. rewrite ctx_span.
    rewrite (IsRecording_lookup _ _ _ Hs), (proj1 Hp). simpl.
    unfold errorClose. rewrite andb_true_r.
    set (s1 := setStatus Error e s).
    assert (Hs1' : s1 = {| name := name s; parent := parent s;
        startTime := startTime s; endTime := endTime s; statusCode := Error;
        statusDescription := e; attributes := attributes s;
        events := events s |}) by (by apply setStatus_lands).
    assert (Hgo : forall opts,
      let w2 := End sid None
                  (RecordError sid (Some (UserError e)) opts false
                     (SetStatus sid Error e w)) in
      exists s', spans w2 !! sid = Some s' /\ endTime s' = Some (clock w2)
                 /\ (statusCode s', statusDescription s') = (Error, e)).
    { intros opts.
      set (s2 := recordError (Some (UserError e)) opts false s1).
      assert (Hrec2 : isRecording s2 = true).
      { assert (Hrec1 : isRecording s1 = true)
          by (rewrite Hs1'; exact (proj1 Hp)).
        unfold s2, recordError. by rewrite Hrec1. }
      assert (Hl2 : spans (RecordError sid (Some (UserError e)) opts false
                       (SetStatus sid Error e w)) !! sid = Some s2).
      { by rewrite spans_RecordError, list_lookup_alter_eq, spans_SetStatus,
          list_lookup_alter_eq, Hs. }
      pose proof (End_recording sid None _
        (eq_trans (IsRecording_lookup _ _ _ Hl2) Hrec2))
        as [HE1 [_ [HE3 _]]].
      cbv zeta. rewrite HE3.
      exists (endAt (clock w) s2).
      split; [by rewrite HE1, list_lookup_alter_eq, Hl2|].
      unfold endAt. rewrite Hrec2. simpl. split; [done|].
      assert (Hrec1 : isRecording s1 = true)
        by (rewrite Hs1'; exact (proj1 Hp)).
      unfold s2, recordError. rewrite Hrec1. simpl. by rewrite Hs1'. }
    destruct (0 <? length tags)%nat.
    + destruct (mergedAttributes h tags) as [attrs|r]; [|done].
      match goal with
      | |- context [End sid None (RecordError sid _ ?o false _)] =>
          destruct (Hgo o) as [s' Hs']
      end.
      eexists _, s'. split; [reflexivity | exact Hs'].
    + match goal with
      | |- context [End sid None (RecordError sid _ ?o false _)] =>
          destruct (Hgo o) as [s' Hs']
      end.
      eexists _, s'. split; [reflexivity | exact Hs'].
Qed.

Lemma attempts_app l1 l2 w :
  attempts (l1 ++ l2) w
  = match attempts l1 w with
    | (Return _, w') => attempts l2 w'
    | (Panic e, w') => (Panic e, w')
    end.
Proof.
  revert w. induction l1 as [|a l1 IH]; intros w; simpl; [done|].
  fold attempt. destruct (attempt a w) as [[[]|e] w']; [apply IH | done].
Qed.

(** The first attempt that closes decides; what comes later changes
    nothing on the span. *)
Lemma first_close_decides pre a post w :
  ready doneC w ->
  forallb (fun b => negb (closes h b)) pre = true ->
  closes h a = true ->
  exists wp wa s,
    attempts pre w = (Return tt, wp)
    /\ IsRecording sid wp = true
    /\ attempts (pre ++ [a]) w = (Return tt, wa)
    /\ spans wa !! sid = Some s
    /\ endTime s = Some (clock wa)
    /\ (statusCode s, statusDescription s) = verdict a
    /\ spans (attempts (pre ++ a :: post) w).2 !! sid = Some s.
Proof.
  intros Hr Hpre Ha.
  destruct (attempts_open pre w Hr Hpre) as [wp [Hrun Hrp]].
  destruct (attempt_close a wp Hrp Ha) as [wa [s [Hstep [Hs [Hend Hv]]]]].
  exists wp, wa, s. split; [done|]. split.
  { destruct Hrp as [[s0 [Hs0 [Hrec _]]] _].
    by rewrite (IsRecording_lookup _ _ _ Hs0). }
  assert (Hrun1 : attempts (pre ++ [a]) w = (Return tt, wa)).
  { rewrite attempts_app, Hrun. simpl. fold attempt. by rewrite Hstep. }
  split; [done|]. split; [done|]. split; [done|]. split; [done|].
  replace (pre ++ a :: post) with ((pre ++ [a]) ++ post)
    by (by rewrite <- app_assoc).
  rewrite attempts_app, Hrun1.
  apply (attempts_keep post wa s Hs).
  unfold isRecording. by rewrite Hend.
Qed.

End OneSpan.

(** What [traceStart] hands back when it returns. *)
Lemma traceStart_ready FuncName t cs h ctx0 funcName virtualTrace tags w0
    f c w1 :
  traceStart FuncName t cs h ctx0 funcName virtualTrace tags w0
  = (Return f, Some c, w1) ->
  exists doneC sid parentSpans parentSpansEndFn,
    f = EnderFn doneC sid parentSpans parentSpansEndFn
    /\ SpanFromContext c = Some sid
    /\ Lifecycle.ready sid doneC w1.
Proof.
  unfold traceStart. intros H.
  destruct (mergedAttributes h tags) as [attrs|r]; [|done].
  match type of H with
  | context [match ?v w0 with _ => _ end] =>
      destruct (v w0) as [[[ctx1 parents]|r] wv]; [|done]
  end.
  unfold tracerStart in H. destruct (tracer t); [|done].
  destruct ctx0 as [c0|]; [|done].
  injection H as Hf Hc Hw. subst f c.
  eexists _, (length (spans wv)), _, _. split; [reflexivity|].
  split; [done|]. subst w1.
  assert (Hnew : forall (l : list Span) x, (l ++ [x]) !! length l = Some x).
  { intros l x. rewrite lookup_app_r by lia.
    by replace (length l - length l) with 0 by lia. }
  assert (Hch : forall (l : list bool), (l ++ [false]) !! length l = Some false).
  { intros l. rewrite lookup_app_r by lia.
    by replace (length l - length l) with 0 by lia. }
  destruct (StuckFunctionWatchdog (config t)); simpl.
  - split; [|apply Hch]. eexists. split; [apply Hnew|]. by split.
  - split; [|apply Hch]. eexists. split; [apply Hnew|]. by split.
Qed.

End LifecycleFacts.

Module AncestryFacts.
Import SafeMaps Otel Tracer Ancestry.

Lemma withSpans_withSpans g1 g2 w :
  withSpans g2 (withSpans g1 w) = withSpans (fun l => g2 (g1 l)) w.
Proof. done. Qed.

Lemma ContextWithSpan_twice ctx a b :
  ContextWithSpan (ContextWithSpan ctx a) b = ContextWithSpan ctx b.
Proof. done. Qed.

Lemma chainContext_step ctx base n :
  chainContext (ContextWithSpan ctx base) (S base) n
  = chainContext ctx base (S n).
Proof.
  destruct n as [|k]; simpl.
  - by replace (base + 0) with base by lia.
  - rewrite ContextWithSpan_twice. by replace (S (base + k)) with (base + S k) by lia.
Qed.

Lemma tracerStart_opens t ctx spanName attrs timestamp newRoot w :
  tracer t = true ->
  tracerStart t ctx spanName attrs timestamp newRoot w
  = (Return (ContextWithSpan ctx (length (spans w)), length (spans w)),
     withSpans (fun l => l ++
       [freshSpan spanName (if newRoot then None else ctxSpan ctx)
          (default (clock w) timestamp) attrs]) w).
Proof. intros H. unfold tracerStart. by rewrite H. Qed.

Lemma length_spans_snoc x w :
  length (spans (withSpans (fun l => l ++ [x]) w)) = S (length (spans w)).
Proof. simpl. rewrite length_app. simpl. lia. Qed.

Section Loop.

Variable FuncName : string -> string.
Variable t : otelTracer.
Variable timestamp : Time.
Variable frames : list Frame.
Variable attributes : list KeyValue.
Hypothesis tracer_set : tracer t = true.

(** The counting loop opens the chain of the frames [i], [i - 1], ..., [1]
    that are not passed over. *)
Lemma framesLoop_chain (i : nat) :
  forall (ctx : Context) (newSpan : option SpanId) (acc : list SpanId)
         (w : World),
    i < length frames ->
    let anc := List.filter (fun frame => negb (isMain frame))
                 (reverse (take i (tail frames))) in
    let prev := match newSpan with None => None | Some _ => ctxSpan ctx end in
    let base := length (spans w) in
    framesLoop FuncName t timestamp frames attributes i ctx newSpan acc w
    = (Return (chainContext ctx base (length anc),
               acc ++ seq base (length anc)),
       withSpans (fun l => l ++ chain FuncName timestamp attributes prev base anc)
         w).
Proof.
  induction i as [|j IH]; intros ctx newSpan acc w Hi; cbv zeta.
  - simpl. rewrite app_nil_r. unfold ret. f_equal.
    destruct w; unfold withSpans; simpl. by rewrite app_nil_r.
  - assert (Hlook : exists frame, frames !! S j = Some frame).
    { apply lookup_lt_is_Some_2 in Hi. destruct Hi as [x Hx]. eauto. }
    destruct Hlook as [frame Hframe].
    assert (Htake : reverse (take (S j) (tail frames))
                    = frame :: reverse (take j (tail frames))).
    { assert (Ht : tail frames !! j = Some frame) by (by rewrite lookup_tail).
      rewrite (take_S_r _ _ _ Ht). by rewrite reverse_snoc. }
    rewrite Htake. cbn [framesLoop]. rewrite Hframe.
    cbn [List.filter]. fold (isMain frame).
    destruct (isMain frame) eqn:Hmain; cbn [negb].
    + apply IH. lia.
    + unfold mbind, M_bind, bind.
      rewrite (tracerStart_opens _ _ _ _ _ _ _ tracer_set).
      rewrite IH by lia. rewrite !length_spans_snoc.
      cbn [length chain default ctxSpan ContextWithSpan].
      rewrite chainContext_step.
      f_equal.
      * f_equal. by rewrite <- app_assoc.
      * unfold withSpans. cbn [spans exported clock doneCs watchdogs logs].
        f_equal. rewrite <- app_assoc. simpl.
        by destruct newSpan.
Qed.

Lemma callStackFramesToSpans_chain (w : World) :
  let anc := ancestorFrames frames in
  let base := length (spans w) in
  callStackFramesToSpans FuncName t timestamp frames attributes w
  = (Return (chainContext Background base (length anc),
             seq base (length anc)),
     withSpans (fun l => l ++ chain FuncName timestamp attributes None base anc)
       w).
Proof.
  cbv zeta. unfold callStackFramesToSpans, ancestorFrames.
  destruct (length frames <=? 2)%nat eqn:Hlen.
  - apply Nat.leb_le in Hlen.
    replace (length frames - 2) with 0 by lia. simpl.
    unfold ret. f_equal. destruct w; unfold withSpans; simpl.
    by rewrite app_nil_r.
  - apply Nat.leb_gt in Hlen.
    rewrite framesLoop_chain by lia. done.
Qed.

End Loop.

Lemma length_chain FuncName start attrs prev base frames :
  length (chain FuncName start attrs prev base frames) = length frames.
Proof.
  revert prev base. induction frames as [|fr frames IH]; intros prev base;
    simpl; [done|]. by rewrite IH.
Qed.

Lemma chain_recording FuncName start attrs prev base frames :
  Forall (fun s => isRecording s = true)
    (chain FuncName start attrs prev base frames).
Proof.
  revert prev base. induction frames as [|fr frames IH]; intros prev base;
    simpl; constructor; [done | apply IH].
Qed.

(** [traceStart] in closed form, for an engine whose exporter handle is set
    and tags that convert. *)
Lemma traceStart_returns FuncName t cs h ctx funcName virtualTrace tags attrs
    w :
  tracer t = true ->
  mergedAttributes h tags = Return attrs ->
  let virtual := match ctx with None => true | Some _ => virtualTrace end in
  let anc := if virtual then ancestorFrames (GetStackFrames cs) else [] in
  let base := length (spans w) in
  let ctx1 := if virtual then chainContext Background base (length anc)
              else default Background ctx in
  let sid := base + length anc in
  traceStart FuncName t cs h ctx funcName virtualTrace tags w
  = (Return (EnderFn (length (doneCs w)) sid (seq base (length anc))
               (if virtual then Some (clock w) else None)),
     match ctx with
     | None => None
     | Some _ => Some (ContextWithSpan ctx1 sid)
     end,
     {| spans := spans w ++ chain FuncName (clock w) attrs None base anc
                  ++ [freshSpan funcName (ctxSpan ctx1) (clock w) attrs];
        exported := exported w;
        clock := clock w;
        doneCs := doneCs w ++ [false];
        watchdogs := watchdogs w
                      ++ watchdogOf t funcName (length (doneCs w)) sid (clock w);
        logs := logs w |}).
Proof.
  intros Ht Hattrs. cbv zeta. unfold traceStart. rewrite Hattrs.
  assert (Hcase : forall virtual : bool,
    (if virtual
     then callStackFramesToSpans FuncName t (clock w) (GetStackFrames cs) attrs
     else ret (default Background ctx, [])) w
    = (let anc := if virtual then ancestorFrames (GetStackFrames cs) else [] in
       (Return (if virtual
                then chainContext Background (length (spans w)) (length anc)
                else default Background ctx,
                seq (length (spans w)) (length anc)),
        withSpans (fun l => l ++ chain FuncName (clock w) attrs None
                                   (length (spans w)) anc) w))).
  { intros [|]; cbv zeta.
    - by rewrite (callStackFramesToSpans_chain _ _ _ _ _ Ht).
    - unfold ret. simpl. f_equal. destruct w; unfold withSpans; simpl.
      by rewrite app_nil_r. }
  rewrite Hcase. cbv beta iota zeta.
  rewrite (tracerStart_opens _ _ _ _ _ _ _ Ht).
  cbv beta iota zeta.
  unfold watchdogOf, spawnWatchdog, withDoneCs, withWatchdogs, withSpans.
  cbn [spans exported clock doneCs watchdogs logs default].
  rewrite !length_app, !length_chain.
  destruct (StuckFunctionWatchdog (config t));
    cbn [spans exported clock doneCs watchdogs logs];
    rewrite <- ?app_assoc, ?app_nil_r; reflexivity.
Qed.

(** Ending a run of recording spans, one handle after the other. *)
Lemma endLoop_run (mid : list Span) :
  forall (pre post : list Span) (now : Time) (w : World),
    spans w = pre ++ mid ++ post ->
    Forall (fun s => isRecording s = true) mid ->
    endLoop (seq (length pre) (length mid)) now w
    = withExported (fun l => l ++ seq (length pre) (length mid))
        (withSpans (fun _ => pre ++ map (endAt now) mid ++ post) w).
Proof.
  induction mid as [|s mid IH]; intros pre post now w Hs Hrec.
  - simpl. destruct w; unfold withExported, withSpans; simpl in *.
    by rewrite app_nil_r, Hs.
  - inversion Hrec as [|? ? Hs1 Hrest]; subst.
    cbn [length seq endLoop].
    assert (Hl : spans w !! length pre = Some s).
    { rewrite Hs, lookup_app_r by lia.
      by replace (length pre - length pre) with 0 by lia. }
    assert (HE : End (length pre) (Some now) w
                 = withExported (fun l => l ++ [length pre])
                     (withSpans (fun _ => (pre ++ [endAt now s]) ++ mid ++ post)
                        w)).
    { unfold End, IsRecording. rewrite Hl, Hs1.
      unfold withExported, withSpans.
      cbn [spans exported clock doneCs watchdogs logs default].
      f_equal. rewrite Hs, alter_app_r_alt by lia.
      replace (length pre - length pre) with 0 by lia.
      simpl. by rewrite <- app_assoc. }
    rewrite HE.
    replace (S (length pre)) with (length (pre ++ [endAt now s]))
      by (rewrite length_app; simpl; lia).
    rewrite (IH (pre ++ [endAt now s]) post now
      (withExported (fun l => l ++ [length pre])
         (withSpans (fun _ => (pre ++ [endAt now s]) ++ mid ++ post) w))
      eq_refl Hrest).
    unfold withExported, withSpans.
    cbn [spans exported clock doneCs watchdogs logs map].
    f_equal; by rewrite <- !app_assoc.
Qed.

End AncestryFacts.

Module CompletionFacts.
Import SafeMaps Otel Tracer Ancestry AncestryFacts.

Lemma lookup_last_of_three {A} (pre mid : list A) (x : A) :
  (pre ++ mid ++ [x]) !! (length pre + length mid) = Some x.
Proof.
  rewrite app_assoc, lookup_app_r by (rewrite length_app; lia).
  rewrite length_app.
  by replace (length pre + length mid - (length pre + length mid)) with 0
    by lia.
Qed.

Lemma alter_last_of_three {A} (g : A -> A) (pre mid : list A) (x : A) :
  alter g (length pre + length mid) (pre ++ mid ++ [x])
  = pre ++ mid ++ [g x].
Proof.
  rewrite !app_assoc, alter_app_r_alt by (rewrite length_app; lia).
  rewrite length_app.
  by replace (length pre + length mid - (length pre + length mid)) with 0
    by lia.
Qed.

(** The completion function on a span that nobody has touched: the named
    span is closed with success now, then the ancestors are ended with the
    captured timestamp, from the first handle of [parentSpans] to the
    last. *)
Lemma invoke_untouched (w1 : World) (pre mid : list Span) (fresh : Span)
    (doneC : nat) (parentSpansEndFn : option Time) :
  spans w1 = pre ++ mid ++ [fresh] ->
  pending fresh ->
  Forall (fun s => isRecording s = true) mid ->
  doneCs w1 !! doneC = Some false ->
  invoke (EnderFn doneC (length pre + length mid)
            (seq (length pre) (length mid)) parentSpansEndFn) w1
  = (Return tt,
     {| spans := pre ++
          match parentSpansEndFn with
          | Some now => map (endAt now) mid
          | None => mid
          end ++ [closedOk (clock w1) fresh];
        exported := exported w1 ++ [length pre + length mid] ++
          match parentSpansEndFn with
          | Some _ => seq (length pre) (length mid)
          | None => []
          end;
        clock := clock w1;
        doneCs := <[ doneC := true ]> (doneCs w1);
        watchdogs := watchdogs w1;
        logs := logs w1 |}).
Proof.
  intros Hs Hp Hmid Hc. unfold invoke, closeChan. rewrite Hc.
  set (sid := length pre + length mid).
  assert (Hok : setStatus Ok "" fresh
    = {| name := name fresh; parent := parent fresh;
         startTime := startTime fresh; endTime := endTime fresh;
         statusCode := Ok; statusDescription := "";
         attributes := attributes fresh; events := events fresh |})
    by (by apply SpanFacts.setStatus_lands).
  assert (Hclosed : endAt (clock w1) (setStatus Ok "" fresh)
                    = closedOk (clock w1) fresh).
  { rewrite Hok. unfold endAt, isRecording. simpl.
    destruct Hp as [Hrec _]. unfold isRecording in Hrec.
    by destruct (endTime fresh). }
  assert (Hrec1 : IsRecording sid
            (withDoneCs (fun l => <[doneC:=true]> l) w1) = true).
  { unfold IsRecording. cbn [spans withDoneCs].
    rewrite Hs. unfold sid. rewrite lookup_last_of_three. apply Hp. }
  rewrite Hrec1.
  assert (Hrec2 : IsRecording sid
            (SetStatus sid Ok ""
               (withDoneCs (fun l => <[doneC:=true]> l) w1)) = true).
  { unfold IsRecording. cbn [spans withDoneCs SetStatus withSpans].
    rewrite Hs. unfold sid. rewrite alter_last_of_three, lookup_last_of_three.
    rewrite Hok. apply Hp. }
  assert (HE : End sid None
      (SetStatus sid Ok "" (withDoneCs (fun l => <[doneC:=true]> l) w1))
    = {| spans := pre ++ mid ++ [closedOk (clock w1) fresh];
         exported := exported w1 ++ [sid];
         clock := clock w1;
         doneCs := <[ doneC := true ]> (doneCs w1);
         watchdogs := watchdogs w1;
         logs := logs w1 |}).
  { unfold End. rewrite Hrec2.
    unfold withExported, withSpans, SetStatus, withSpans, withDoneCs.
    cbn [spans exported clock doneCs watchdogs logs default].
    f_equal. rewrite Hs. unfold sid.
    by rewrite !alter_last_of_three, Hclosed. }
  rewrite HE. f_equal.
  destruct parentSpansEndFn as [now|].
  - erewrite (endLoop_run mid pre [closedOk (clock w1) fresh] now);
      [|reflexivity|exact Hmid].
    unfold withExported, withSpans.
    cbn [spans exported clock doneCs watchdogs logs].
    by rewrite <- app_assoc.
  - by rewrite app_nil_r.
Qed.

End CompletionFacts.

Module WatchdogFacts.
Import SafeMaps Otel Tracer Ancestry AncestryFacts CompletionFacts Samples.

Lemma freshSpan_pending spanName parent start attrs :
  pending (freshSpan spanName parent start attrs).
Proof. by split. Qed.

Lemma flaggedStuck_pending funcName elapsed s :
  pending s -> pending (flaggedStuck funcName elapsed s).
Proof. intros [Hrec _]. split; [exact Hrec | done]. Qed.

(** The [<-timeout.C] case on a span that is still pending. *)
Lemma watchdogExpire_pending (w1 : World) (pre mid : list Span) (s : Span)
    (i : nat) (g : Watchdog) :
  spans w1 = pre ++ mid ++ [s] ->
  pending s ->
  watchdogs w1 !! i = Some g ->
  wdWaiting g = true ->
  (wdDeadline g <= clock w1)%Z ->
  wdSpan g = length pre + length mid ->
  watchdogExpire i w1
  = {| spans := pre ++ mid ++
                  [flaggedStuck (wdName g) (clock w1 - wdStart g) s];
       exported := exported w1;
       clock := clock w1;
       doneCs := doneCs w1;
       watchdogs := alter (setWaiting false) i (watchdogs w1);
       logs := logs w1 |}.
Proof.
  intros Hs Hp Hg Hwait Hdead Hspan.
  unfold watchdogExpire. rewrite Hg, Hwait.
  assert (Hle : (wdDeadline g <=? clock w1)%Z = true) by (by apply Z.leb_le).
  rewrite Hle. cbn [andb]. rewrite Hspan.
  assert (Hrec : IsRecording (length pre + length mid)
            (withWatchdogs (alter (setWaiting false) i) w1) = true).
  { unfold IsRecording. cbn [spans withWatchdogs].
    rewrite Hs, lookup_last_of_three. apply Hp. }
  rewrite Hrec. cbn [negb].
  unfold SetStatus, SetAttributes, RecordError, withSpans, withWatchdogs.
  cbn [spans exported clock doneCs watchdogs logs].
  f_equal. rewrite Hs, !alter_last_of_three. do 2 f_equal.
  destruct Hp as [Hrec' Hok].
  unfold recordError. rewrite Hrec'.
  unfold setAttributes at 1. unfold isRecording at 1. cbn [endTime].
  fold (isRecording s). rewrite Hrec'.
  rewrite SpanFacts.setStatus_lands; [done | by split | done].
Qed.

(** C5, as the engine is written.  When the watchdog is enabled and its
    timer expires while the span is still recording, the watchdog records a
    synthetic stuck error on the span, sets the attribute [exception.type] to
    [stuck] and sets the error status, and does not end the span.  The later
    normal completion finds the span still recording: it sets the status Ok,
    which replaces the stuck error status, and ends the span; the stuck error
    event and the attribute stay on the span.  The watchdog releases its
    timer on the expiry and on the completion signal. *)
Theorem watchdog_flags_without_ending (FuncName : string -> string)
    (t : otelTracer) (cs : CallSite) (h : Heap) (ctx : option Context)
    (funcName : string) (virtualTrace : bool) (tags : list Tags)
    (attrs : list KeyValue) (w : World) (d d' : Time) :
  tracer t = true ->
  mergedAttributes h tags = Return attrs ->
  StuckFunctionWatchdog (config t) = true ->
  (StuckFunctionTimeout (config t) <= d)%Z ->
  exists (f : SpanEnderFn) (c : option Context) (w1 : World) (sid : SpanId)
         (fresh : Span),
    traceStart FuncName t cs h ctx funcName virtualTrace tags w
    = (Return f, c, w1)
    /\ spans w1 !! sid = Some fresh
    /\ let i := length (watchdogs w) in
       let wx := watchdogExpire i (tick d w1) in
       let stuck := flaggedStuck funcName (Z.max 0 d) fresh in
       spans wx !! sid = Some stuck
       /\ isRecording stuck = true
       /\ exported wx = exported w
       /\ wdWaiting <$> watchdogs wx !! i = Some false
       /\ (exists wy,
             invoke f (tick d' wx) = (Return tt, wy)
             /\ spans wy !! sid = Some (closedOk (clock wy) stuck))
       /\ (exists wz,
             invoke f w1 = (Return tt, wz)
             /\ wdWaiting <$> watchdogs (watchdogDone i wz) !! i = Some false
             /\ spans (watchdogDone i wz) = spans wz).
Proof.
  intros Ht Hattrs Hwd Htimeout.
  pose proof (traceStart_returns FuncName t cs h ctx funcName virtualTrace
                tags attrs w Ht Hattrs) as Hstart.
  cbv zeta in Hstart.
  set (virtual := match ctx with None => true | Some _ => virtualTrace end)
    in *.
  set (anc := if virtual then ancestorFrames (GetStackFrames cs) else [])
    in *.
  set (base := length (spans w)) in *.
  set (ctx1 := if virtual then chainContext Background base (length anc)
               else default Background ctx) in *.
  set (mid := chain FuncName (clock w) attrs None base anc) in *.
  set (fresh := freshSpan funcName (ctxSpan ctx1) (clock w) attrs) in *.
  assert (Hmid : length mid = length anc) by apply length_chain.
  unfold watchdogOf in Hstart. rewrite Hwd in Hstart.
  set (g := {| wdName := funcName; wdStart := clock w;
               wdDeadline := (clock w + StuckFunctionTimeout (config t))%Z;
               wdDoneC := length (doneCs w); wdSpan := base + length anc;
               wdWaiting := true |}) in *.
  eexists _, _, _, (base + length anc), fresh.
  split; [exact Hstart|].
  set (w1 := {| spans := spans w ++ mid ++ [fresh]; exported := exported w;
                clock := clock w; doneCs := doneCs w ++ [false];
                watchdogs := watchdogs w ++ [g]; logs := logs w |}).
  assert (Hs1 : spans w1 = spans w ++ mid ++ [fresh]) by done.
  split.
  { rewrite Hs1. unfold base. rewrite <- Hmid. apply lookup_last_of_three. }
  cbv zeta.
  assert (Hg : forall (l : list Watchdog), (l ++ [g]) !! length l = Some g).
  { intros l. rewrite lookup_app_r by lia.
    by replace (length l - length l) with 0 by lia. }
  assert (Hdone : forall (l : list bool), (l ++ [false]) !! length l = Some false).
  { intros l. rewrite lookup_app_r by lia.
    by replace (length l - length l) with 0 by lia. }
  assert (Hx : watchdogExpire (length (watchdogs w)) (tick d w1)
    = {| spans := spans w ++ mid ++ [flaggedStuck funcName (Z.max 0 d) fresh];
         exported := exported w;
         clock := (clock w + Z.max 0 d)%Z;
         doneCs := doneCs w ++ [false];
         watchdogs := alter (setWaiting false) (length (watchdogs w))
                        (watchdogs w ++ [g]);
         logs := logs w |}).
  { rewrite (watchdogExpire_pending (tick d w1) (spans w) mid fresh
               (length (watchdogs w)) g).
    - cbn [tick withClock w1 spans exported clock doneCs watchdogs logs wdName
           wdStart g].
      by replace (clock w + Z.max 0 d - clock w)%Z with (Z.max 0 d) by lia.
    - done.
    - apply freshSpan_pending.
    - apply Hg.
    - done.
    - cbn [tick withClock w1 clock wdDeadline g]. lia.
    - cbn [wdSpan g]. unfold base. by rewrite Hmid. }
  rewrite Hx. cbn [spans exported watchdogs].
  split.
  { unfold base. rewrite <- Hmid. apply lookup_last_of_three. }
  split; [done|]. split; [done|]. split.
  { rewrite list_lookup_alter_eq, Hg. done. }
  split.
  - eexists. split.
    + unfold base. rewrite <- Hmid.
      apply (invoke_untouched _ (spans w) mid
               (flaggedStuck funcName (Z.max 0 d) fresh)).
      * done.
      * apply flaggedStuck_pending, freshSpan_pending.
      * apply chain_recording.
      * cbn [tick withClock doneCs]. apply Hdone.
    + cbn [spans clock]. unfold base. rewrite <- Hmid.
      destruct (if virtual then Some (clock w) else None);
        rewrite ?length_map; [|apply lookup_last_of_three].
      rewrite <- (length_map (endAt z) mid) at 1. apply lookup_last_of_three.
  - eexists. split.
    + unfold base. rewrite <- Hmid.
      apply (invoke_untouched w1 (spans w) mid fresh).
      * done.
      * apply freshSpan_pending.
      * apply chain_recording.
      * apply Hdone.
    + unfold watchdogDone. cbn [watchdogs doneCs]. rewrite Hg.
      cbn [wdWaiting wdDoneC g andb].
      assert (Hclosed : <[length (doneCs w):=true]> (doneCs w1)
                          !! length (doneCs w) = Some true).
      { apply list_lookup_insert_eq. unfold w1. cbn [doneCs].
        rewrite length_app. simpl. lia. }
      rewrite Hclosed.
      change (default false (Some true)) with true. cbv iota.
      cbn [withWatchdogs watchdogs spans].
      split; [|done].
      unfold w1. cbn [watchdogs]. by rewrite list_lookup_alter_eq, Hg.
Qed.

End WatchdogFacts.

Module CompletionClaims.
Import SafeMaps Otel Tracer Ancestry Lifecycle LifecycleFacts AncestryFacts
  CompletionFacts WatchdogFacts Samples.




Lemma watchdog_flags_without_ending_witness :
  tracer (sampleTracer true) = true
  /\ mergedAttributes sampleHeap [] = Return []
  /\ StuckFunctionWatchdog (config (sampleTracer true)) = true
  /\ (StuckFunctionTimeout (config (sampleTracer true)) <= second)%Z
  /\ exists (f : SpanEnderFn) (c : option Context) (w1 : World) (sid : SpanId)
            (fresh : Span),
       traceStart qualifiedName (sampleTracer true) siteFGH sampleHeap
         (Some Background) "work" false [] emptyWorld
       = (Return f, c, w1)
       /\ spans w1 !! sid = Some fresh
       /\ let i := length (watchdogs emptyWorld) in
          let wx := watchdogExpire i (tick second w1) in
          let stuck := flaggedStuck "work" (Z.max 0 second) fresh in
          spans wx !! sid = Some stuck
          /\ isRecording stuck = true
          /\ exported wx = exported emptyWorld
          /\ wdWaiting <$> watchdogs wx !! i = Some false
          /\ (exists wy,
                invoke f (tick (2 * second) wx) = (Return tt, wy)
                /\ spans wy !! sid = Some (closedOk (clock wy) stuck))
          /\ (exists wz,
                invoke f w1 = (Return tt, wz)
                /\ wdWaiting <$> watchdogs (watchdogDone i wz) !! i
                   = Some false
                /\ spans (watchdogDone i wz) = spans wz).
Proof.
  assert (H1 : tracer (sampleTracer true) = true) by reflexivity.
  assert (H2 : mergedAttributes sampleHeap [] = Return [])
    by (vm_compute; reflexivity).
  assert (H3 : StuckFunctionWatchdog (config (sampleTracer true)) = true)
    by reflexivity.
  assert (H4 : (StuckFunctionTimeout (config (sampleTracer true)) <= second)%Z)
    by (vm_compute; discriminate).
  split; [exact H1|]. split; [exact H2|]. split; [exact H3|].
  split; [exact H4|].
  exact (watchdog_flags_without_ending qualifiedName (sampleTracer true)
           siteFGH sampleHeap (Some Background) "work" false [] [] emptyWorld
           second (2 * second)%Z H1 H2 H3 H4).
Defined.

(** C5 fails as stated: the watchdog times out after one second, the traced
    function returns normally after three; the span is exported with the
    status Ok, the stuck error being left as an event only. *)
Lemma completion_replaces_stuck_status :
  let t := sampleTracer true in
  let started := Trace qualifiedName t siteFGH sampleHeap (Some Background)
                   [] emptyWorld in
  let finished :=
    (attempts qualifiedName t sampleHeap started.1.1
       (default Background started.1.2)
       [Elapse second; Expire 0; Elapse (2 * second); Complete] started.2).2 in
  exported finished = [0]
  /\ (fun s => (name s, statusCode s, statusDescription s,
                map evError (events s)))
       <$> spans finished !! 0
     = Some ("main.h", Ok, "", [StuckError "main.h" second]).
Proof. vm_compute. split; reflexivity. Qed.

End CompletionClaims.

Module ErrorClaims.
Import SafeMaps Otel Tracer Ancestry Lifecycle LifecycleFacts AncestryFacts
  CompletionFacts WatchdogFacts Samples.

(** The tail of [TraceError] on a span that is still pending. *)
Lemma errorClose_pending (w1 : World) (pre mid : list Span) (s : Span)
    (cs : CallSite) (h : Heap) (e : string) (tags : list Tags)
    (isNewSpan : bool) (opts : list KeyValue) :
  spans w1 = pre ++ mid ++ [s] ->
  pending s ->
  (if (0 <? length tags)%nat && negb isNewSpan
   then mergedAttributes h tags else Return []) = Return opts ->
  errorClose cs h (length pre + length mid) e tags isNewSpan w1
  = (Return tt,
     {| spans := pre ++ mid ++
                   [closedError (clock w1) e (opts ++ stackTraceOption cs) s];
        exported := exported w1 ++ [length pre + length mid];
        clock := clock w1;
        doneCs := doneCs w1;
        watchdogs := watchdogs w1;
        logs := logs w1 |}).
Proof.
  intros Hs Hp Hopts. unfold errorClose. rewrite Hopts.
  set (sid := length pre + length mid).
  assert (Hopt2 : (if String.eqb (captureErrorStackTrace cs 3) "" then opts
                   else opts ++ [ {| Key := "exception.stacktrace";
                                     Val := VString (captureErrorStackTrace cs 3) |} ])
                  = opts ++ stackTraceOption cs).
  { unfold stackTraceOption.
    destruct (String.eqb (captureErrorStackTrace cs 3) "");
      [by rewrite app_nil_r | done]. }
  rewrite Hopt2.
  assert (Hset : setStatus Error e s
    = {| name := name s; parent := parent s; startTime := startTime s;
         endTime := endTime s; statusCode := Error; statusDescription := e;
         attributes := attributes s; events := events s |})
    by (by apply SpanFacts.setStatus_lands).
  destruct Hp as [Hrec Hok].
  assert (Hrec1 : isRecording (setStatus Error e s) = true)
    by (rewrite Hset; exact Hrec).
  assert (Hfinal :
    endAt (clock w1)
      (recordError (Some (UserError e)) (opts ++ stackTraceOption cs) false
         (setStatus Error e s))
    = closedError (clock w1) e (opts ++ stackTraceOption cs) s).
  { unfold recordError. rewrite Hrec1. unfold endAt.
    unfold isRecording at 1. cbn [endTime]. fold (isRecording (setStatus Error e s)).
    rewrite Hrec1. rewrite Hset. done. }
  assert (Hrec2 : IsRecording sid
    (RecordError sid (Some (UserError e)) (opts ++ stackTraceOption cs) false
       (SetStatus sid Error e w1)) = true).
  { unfold IsRecording, RecordError, SetStatus, withSpans. cbn [spans].
    rewrite Hs. unfold sid.
    rewrite !alter_last_of_three, lookup_last_of_three.
    unfold recordError. by rewrite Hrec1. }
  f_equal. unfold End. rewrite Hrec2.
  unfold withExported, RecordError, SetStatus, withSpans.
  cbn [spans exported clock doneCs watchdogs logs default].
  f_equal. rewrite Hs. unfold sid.
  by rewrite !alter_last_of_three, Hfinal.
Qed.



(** C7.  [TraceError] with a nil error records no error on any span,
    changes no span status, logs one line at debug level and returns
    normally, whatever the context and the tags; so does the package-level
    [TraceError], which logs nothing at all while no engine is enabled. *)
Theorem TraceError_nil_error (FuncName : string -> string) (t : otelTracer)
    (g : Registry.Globals) (cs : CallSite) (h : Heap) (ctx : option Context)
    (tags : list Tags) (w : World) :
  TraceError FuncName t cs h ctx None tags w
  = {| spans := spans w; exported := exported w; clock := clock w;
       doneCs := doneCs w; watchdogs := watchdogs w;
       logs := logs w ++
         [ {| level := LevelDebug;
              message := "coretracer: TraceError() called with nil error";
              fields := [] |} ] |}
  /\ spans (Registry.TraceError FuncName g cs h ctx None tags w) = spans w
  /\ exported (Registry.TraceError FuncName g cs h ctx None tags w)
     = exported w
  /\ Forall (fun r => level r = LevelDebug)
       (drop (length (logs w))
          (logs (Registry.TraceError FuncName g cs h ctx None tags w))).
Proof.
  split; [done|]. unfold Registry.TraceError.
  destruct (Registry.tracer g) as [t'|]; cbn [TraceError log spans exported logs].
  - split; [done|]. split; [done|].
    rewrite drop_app_length. by repeat constructor.
  - split; [done|]. split; [done|].
    rewrite drop_all. constructor.
Qed.

End ErrorClaims.

Module AncestorClaims.
Import SafeMaps Otel Tracer Ancestry Lifecycle LifecycleFacts AncestryFacts
  CompletionFacts WatchdogFacts Samples.

Lemma chain_lookup FuncName start attrs (frames : list Frame) :
  forall (prev : option SpanId) (base k : nat) (frame : Frame),
    frames !! k = Some frame ->
    chain FuncName start attrs prev base frames !! k
    = Some (freshSpan (FuncName (Function frame))
              (match k with 0 => prev | S j => Some (base + j) end)
              start attrs).
Proof.
  induction frames as [|fr frames IH]; intros prev base k frame Hk; [done|].
  destruct k as [|k]; simpl in *.
  - by inversion Hk.
  - rewrite (IH (Some base) (S base) k frame Hk).
    destruct k as [|j]; simpl.
    + by replace (base + 0) with base by lia.
    + by replace (base + S j) with (S (base + j)) by lia.
Qed.

Lemma ctxSpan_chainContext base n :
  ctxSpan (chainContext Background base n)
  = match n with 0 => None | S k => Some (base + k) end.
Proof. by destruct n. Qed.

(** C4, as the engine is written.  When virtual ancestor reconstruction
    runs, the engine captures [GetStackFrames()] once and opens one span per
    captured frame that lies strictly between the nearest and the bottom-most
    frame and is not [runtime.main] or [main.main], from the frame nearest
    the program entry to the frame nearest the call site, each the parent of
    the next and the last the parent of the named span, all stamped with the
    one captured start time; the completion function ends every one of them
    at that same time.  In particular, for [f] calling [g] calling [h], [f]
    called from [main.main] and only [h] tracing, the trace holds exactly the
    three spans [f], [g], [h], root first, all of zero duration except
    [h]. *)
Theorem virtual_ancestor_chain (FuncName : string -> string) (t : otelTracer)
    (cs : CallSite) (h : Heap) (ctx : option Context) (funcName : string)
    (tags : list Tags) (attrs : list KeyValue) (w : World) (d : Time) :
  tracer t = true ->
  mergedAttributes h tags = Return attrs ->
  let anc := ancestorFrames (GetStackFrames cs) in
  let base := length (spans w) in
  let now := clock w in
  let ancestors := chain FuncName now attrs None base anc in
  let named :=
    freshSpan funcName
      (match length anc with 0 => None | S k => Some (base + k) end)
      now attrs in
  (exists (f : SpanEnderFn) (c : option Context) (w1 w2 : World),
     traceStart FuncName t cs h ctx funcName true tags w = (Return f, c, w1)
     /\ spans w1 = spans w ++ ancestors ++ [named]
     /\ invoke f (tick d w1) = (Return tt, w2)
     /\ spans w2
        = spans w ++ map (endAt now) ancestors
            ++ [closedOk (now + Z.max 0 d) named])
  /\ length ancestors = length anc
  /\ (forall (k : nat) (frame : Frame),
        anc !! k = Some frame ->
        ancestors !! k
        = Some (freshSpan (FuncName (Function frame))
                  (match k with 0 => None | S j => Some (base + j) end)
                  now attrs)
        /\ endAt now <$> ancestors !! k
           = Some {| name := FuncName (Function frame);
                     parent := match k with
                               | 0 => None
                               | S j => Some (base + j)
                               end;
                     startTime := now; endTime := Some now;
                     statusCode := Unset; statusDescription := "";
                     attributes := addAttributes attrs []; events := [] |})
  /\ (let started :=
        Traceless FuncName (sampleTracer false) siteFGH sampleHeap None []
          emptyWorld in
      map (fun s => (name s, parent s, startTime s, endTime s))
        (spans (invoke started.1.1 (tick (3 * second) started.2)).2)
      = [ (FuncName "main.f", None, 0%Z, Some 0%Z);
          (FuncName "main.g", Some 0, 0%Z, Some 0%Z);
          (FuncName "main.h", Some 1, 0%Z, Some (3 * second)%Z) ]).
Proof.
  intros Ht Hattrs. cbv zeta.
  set (anc := ancestorFrames (GetStackFrames cs)).
  set (mid := chain FuncName (clock w) attrs None (length (spans w)) anc).
  assert (Hmid : length mid = length anc) by apply length_chain.
  pose proof (traceStart_returns FuncName t cs h ctx funcName true tags attrs
                w Ht Hattrs) as Hstart.
  cbv zeta in Hstart.
  assert (Hvirtual : match ctx with None => true | Some _ => true end = true)
    by (by destruct ctx).
  rewrite Hvirtual in Hstart. fold anc in Hstart. fold mid in Hstart.
  rewrite ctxSpan_chainContext in Hstart.
  split; [|split; [exact Hmid|split]].
  - eexists _, _, _, _. split; [exact Hstart|]. split; [done|]. split.
    + rewrite <- Hmid.
      apply (invoke_untouched _ (spans w) mid).
      * done.
      * apply freshSpan_pending.
      * apply chain_recording.
      * cbn [tick withClock doneCs]. rewrite lookup_app_r by lia.
        by replace (length (doneCs w) - length (doneCs w)) with 0 by lia.
    + cbn [spans tick withClock clock]. by rewrite Hmid.
  - intros k frame Hk. unfold mid.
    rewrite (chain_lookup FuncName (clock w) attrs anc None _ k frame Hk).
    split; done.
  - vm_compute. reflexivity.
Qed.

Lemma virtual_ancestor_chain_witness :
  tracer (sampleTracer false) = true
  /\ mergedAttributes sampleHeap [] = Return []
  /\ exists (f : SpanEnderFn) (c : option Context) (w1 w2 : World),
       traceStart qualifiedName (sampleTracer false) siteTest sampleHeap None
         "example.h" true [] emptyWorld = (Return f, c, w1)
       /\ spans w1
          = spans emptyWorld
              ++ chain qualifiedName (clock emptyWorld) [] None
                   (length (spans emptyWorld))
                   (ancestorFrames (GetStackFrames siteTest))
              ++ [freshSpan "example.h"
                    (match length (ancestorFrames (GetStackFrames siteTest))
                     with
                     | 0 => None
                     | S k => Some (length (spans emptyWorld) + k)
                     end)
                    (clock emptyWorld) []]
       /\ invoke f (tick second w1) = (Return tt, w2)
       /\ spans w2
          = spans emptyWorld
              ++ map (endAt (clock emptyWorld))
                   (chain qualifiedName (clock emptyWorld) [] None
                      (length (spans emptyWorld))
                      (ancestorFrames (GetStackFrames siteTest)))
              ++ [closedOk (clock emptyWorld + Z.max 0 second)
                    (freshSpan "example.h"
                       (match length (ancestorFrames (GetStackFrames siteTest))
                        with
                        | 0 => None
                        | S k => Some (length (spans emptyWorld) + k)
                        end)
                       (clock emptyWorld) [])].
Proof.
  assert (H1 : tracer (sampleTracer false) = true) by reflexivity.
  assert (H2 : mergedAttributes sampleHeap [] = Return [])
    by (vm_compute; reflexivity).
  split; [exact H1|]. split; [exact H2|].
  exact (proj1 (virtual_ancestor_chain qualifiedName (sampleTracer false)
           siteTest sampleHeap None "example.h" [] [] emptyWorld second H1 H2)).
Defined.

(** C4 fails as stated: of the five frames captured when a test function
    calls [f] calls [g] calls [h], the bottom-most one, [testing.tRunner],
    gets no span. *)
Lemma bottom_frame_gets_no_span :
  let started :=
    Traceless qualifiedName (sampleTracer false) siteTest sampleHeap None []
      emptyWorld in
  map Function (GetStackFrames siteTest)
  = ["example.h"; "example.g"; "example.f"; "example.TestTrace";
     "testing.tRunner"]
  /\ map name (spans started.2)
     = ["example.TestTrace"; "example.f"; "example.g"; "example.h"].
Proof. vm_compute. split; reflexivity. Qed.

(** C2, evaluated.  A test function [TestTrace] calls [f] calls [g] calls
    [h], and [h] calls [Traceless]: the synthetic ancestors are opened as
    [TestTrace], [f], [g] (handles 0, 1, 2) and then the named span [h]
    (handle 3).  The completion function ends [h] and then the ancestors in
    the order [TestTrace], [f], [g] - the order in which they were opened,
    root first, and not its reverse - all of them with the captured start
    time as end time. *)
Theorem ancestors_end_in_opening_order (FuncName : string -> string) :
  let started :=
    Traceless FuncName (sampleTracer false) siteTest sampleHeap None []
      emptyWorld in
  let finished := (invoke started.1.1 (tick second started.2)).2 in
  started.1.1 = EnderFn 0 3 [0; 1; 2] (Some 0%Z)
  /\ map name (spans started.2)
     = [FuncName "example.TestTrace"; FuncName "example.f";
        FuncName "example.g"; FuncName "example.h"]
  /\ map parent (spans started.2) = [None; Some 0; Some 1; Some 2]
  /\ exported finished = [3; 0; 1; 2]
  /\ exported finished <> [3; 2; 1; 0]
  /\ map (fun s => (startTime s, endTime s)) (spans finished)
     = [ (0%Z, Some 0%Z); (0%Z, Some 0%Z); (0%Z, Some 0%Z);
         (0%Z, Some second) ].
Proof. vm_compute. repeat split; try reflexivity. discriminate. Qed.

End AncestorClaims.

Module LedgerClaims.
Import SafeMaps Otel Tracer Ledger LedgerFacts Samples.

(** The markers of a context play no part in [TraceError]. *)
Lemma TraceError_ignores_markers (FuncName : string -> string)
    (t : otelTracer) (cs : CallSite) (h : Heap) (err : option string)
    (tags : list Tags) (w : World) (s : option SpanId)
    (d e k d' e' k' : bool) :
  TraceError FuncName t cs h
    (Some {| ctxSpan := s; spanDone := d; spanError := e; spanStuck := k |})
    err tags w
  = TraceError FuncName t cs h
      (Some {| ctxSpan := s; spanDone := d'; spanError := e';
               spanStuck := k' |})
      err tags w.
Proof.
  unfold TraceError. destruct err as [msg|]; [|done].
  cbn [default from_option id SpanFromContext ctxSpan].
  destruct s as [span|]; [done|].
  unfold traceStart.
  destruct (mergedAttributes h tags) as [attrs|r]; [|done].
  match goal with
  | |- context [callStackFramesToSpans ?F ?t ?n ?fr ?a ?w0] =>
      destruct (callStackFramesToSpans F t n fr a w0)
        as [[[ctx1 parents]|r] wv]; [|done]
  end.
  destruct (tracerStart t ctx1 (FuncName (Function (GetCaller cs))) attrs
              None false wv) as [[[mc sp]|r] w2]; done.
Qed.



End LedgerClaims.

Module StackCacheFacts.
Import StackCache Samples.



End StackCacheFacts.

Module TagsFacts.
Import SafeMaps SafeMapsFacts Samples.

Lemma foldl_union_last {A} (g : A -> gmap string any) (k : string) (v : any)
    (before : list A) (x : A) (after : list A) :
  forall acc : gmap string any,
    g x !! k = Some v ->
    Forall (fun y => g y !! k = None) after ->
    foldl (fun a y => g y ∪ a) acc (before ++ x :: after) !! k = Some v.
Proof.
  intros acc Hx Hafter. rewrite foldl_app. simpl.
  generalize (foldl (fun a y => g y ∪ a) acc before). intros acc'.
  assert (Hstart : (g x ∪ acc') !! k = Some v)
    by (apply lookup_union_Some_raw; by left).
  revert Hstart. generalize (g x ∪ acc'). clear Hx.
  induction Hafter as [|y after Hy Hall IH]; intros a Ha; simpl; [done|].
  apply IH. by rewrite lookup_union_r.
Qed.

Lemma foldl_union_absent {A} (g : A -> gmap string any) (k : string)
    (l : list A) :
  forall acc : gmap string any,
    Forall (fun y => g y !! k = None) l ->
    foldl (fun a y => g y ∪ a) acc l !! k = acc !! k.
Proof.
  intros acc Hl. revert acc.
  induction Hl as [|y l Hy Hall IH]; intros acc; simpl; [done|].
  rewrite IH. by rewrite lookup_union_r.
Qed.

Lemma view_fresh (n : nat) (objs : list (gmap string any))
    (entries : gmap string any) (mu : nat) :
  view {| nextMux := n; mapObjs := objs ++ [entries] |}
       {| mux := Some mu; m := Some (length objs) |} = entries.
Proof.
  unfold view, IsValid, deref; simpl.
  rewrite lookup_app_r by lia.
  by replace (length objs - length objs) with 0 by lia.
Qed.

(** X1.  [With] on an initialised set writes in place: afterwards the key
    reads back the string, the other keys and the other map objects are as
    before, nothing is allocated, and every copy of the set that shares the
    map sees the new pair. *)
Theorem With_writes_in_place (t : Tags) (k v : string) (h : Heap)
    (mu i : nat) :
  mux t = Some mu -> m t = Some i -> i < length (mapObjs h) ->
  exists h' : Heap,
    With t k v h = (Return t, h')
    /\ view h' t !! k = Some (AnyString v)
    /\ (forall k', k' <> k -> view h' t !! k' = view h t !! k')
    /\ length (mapObjs h') = length (mapObjs h)
    /\ nextMux h' = nextMux h
    /\ (forall j, j <> i -> mapObjs h' !! j = mapObjs h !! j)
    /\ (forall alias : Tags,
          IsValid alias = true -> m alias = Some i ->
          view h' alias = view h' t).
Proof.
  intros Hmux Hm Hi.
  destruct (lookup_lt_is_Some_2 _ _ Hi) as [o Ho].
  eexists. unfold With, Set_. rewrite Hmux, Hm. split; [reflexivity|].
  assert (Hview : forall h0, view h0 t = deref h0 (Some i)).
  { intros h0. unfold view, IsValid. by rewrite Hmux, Hm. }
  assert (Halias : forall h0 (alias : Tags),
            IsValid alias = true -> m alias = Some i ->
            view h0 alias = view h0 t).
  { intros h0 alias Hvalid Hma. rewrite Hview. unfold view.
    by rewrite Hvalid, Hma. }
  repeat split; try (by auto).
  - rewrite Hview. unfold deref. cbn [mapObjs].
    rewrite list_lookup_alter_eq, Ho. simpl. by rewrite lookup_insert_eq.
  - intros k' Hk'. rewrite !Hview. unfold deref. cbn [mapObjs].
    rewrite list_lookup_alter_eq, Ho. simpl. by rewrite lookup_insert_ne.
  - cbn [mapObjs]. by rewrite length_alter.
  - intros j Hj. cbn [mapObjs]. by rewrite list_lookup_alter_ne.
Qed.

Lemma With_writes_in_place_witness :
  mux sampleTags = Some 0 /\ m sampleTags = Some 0
  /\ 0 < length (mapObjs sampleHeap)
  /\ exists h' : Heap,
       With sampleTags "env" "dev" sampleHeap = (Return sampleTags, h')
       /\ view h' sampleTags !! "env" = Some (AnyString "dev")
       /\ (forall k', k' <> "env" ->
             view h' sampleTags !! k' = view sampleHeap sampleTags !! k')
       /\ length (mapObjs h') = length (mapObjs sampleHeap)
       /\ nextMux h' = nextMux sampleHeap
       /\ (forall j, j <> 0 -> mapObjs h' !! j = mapObjs sampleHeap !! j)
       /\ (forall alias : Tags,
             IsValid alias = true -> m alias = Some 0 ->
             view h' alias = view h' sampleTags).
Proof.
  assert (H3 : 0 < length (mapObjs sampleHeap)) by (simpl; lia).
  split; [reflexivity|]. split; [reflexivity|]. split; [exact H3|].
  exact (With_writes_in_place sampleTags "env" "dev" sampleHeap 0 0
           eq_refl eq_refl H3).
Defined.

(** The function that collects the entries it is called on and asks to go
    on as long as [p] holds. *)
Lemma rangeLoop_stops_at_first_false (p : string -> any -> bool)
    (entries : list (string * any)) :
  forall acc : list (string * any),
  exists pre stop rest,
    entries = pre ++ stop ++ rest
    /\ rangeLoop (fun k v a => Return (a ++ [(k, v)], p k v)) entries acc
       = Return (acc ++ pre ++ stop)
    /\ Forall (fun e => p e.1 e.2 = true) pre
    /\ ((stop = [] /\ rest = [])
        \/ exists e, stop = [e] /\ p e.1 e.2 = false).
Proof.
  induction entries as [|[k v] entries IH]; intros acc.
  - exists [], [], []. simpl. rewrite app_nil_r. repeat split; auto.
  - simpl. destruct (p k v) eqn:Hp.
    + destruct (IH (acc ++ [(k, v)])) as [pre [stop [rest [He [Hr [Hpre Hs]]]]]].
      exists ((k, v) :: pre), stop, rest. rewrite Hr, He.
      split; [done|]. split; [by rewrite <- app_assoc|].
      split; [by constructor | done].
    + exists [], [(k, v)], entries. simpl.
      split; [done|]. split; [done|]. split; [constructor|].
      right. by exists (k, v).
Qed.

(** X2.  [Range] calls its function on the entries of the set one after the
    other and stops after the first call that returns false: the entries
    visited are a prefix of the entries, all of them but the last one asked
    to go on.  With a function that always returns true every entry is
    visited exactly once; with one that always returns false at most one
    entry is visited.  On the zero value there is nothing to visit. *)
Theorem Range_stops_at_first_false (t : Tags) (h : Heap)
    (p : string -> any -> bool) :
  (exists pre stop rest,
     map_to_list (view h t) = pre ++ stop ++ rest
     /\ Range t (fun k v a => Return (a ++ [(k, v)], p k v)) [] h
        = Return (pre ++ stop)
     /\ Forall (fun e => p e.1 e.2 = true) pre
     /\ ((stop = [] /\ rest = [])
         \/ exists e, stop = [e] /\ p e.1 e.2 = false))
  /\ (exists visited,
        Range t (fun k v a => Return (a ++ [(k, v)], true)) [] h
        = Return visited
        /\ list_to_map visited = view h t
        /\ NoDup visited.*1
        /\ length visited = size (view h t))
  /\ (exists visited,
        Range t (fun k v a => Return (a ++ [(k, v)], false)) [] h
        = Return visited
        /\ length visited = Nat.min 1 (size (view h t))).
Proof.
  assert (Hrange : forall q,
    Range t (fun k v a => Return (a ++ [(k, v)], q k v)) [] h
    = rangeLoop (fun k v a => Return (a ++ [(k, v)], q k v))
        (map_to_list (view h t)) []).
  { intros q. unfold Range, view, IsValid.
    destruct (mux t); [done|]. by rewrite map_to_list_empty. }
  split; [|split].
  - rewrite Hrange.
    destruct (rangeLoop_stops_at_first_false p (map_to_list (view h t)) [])
      as [pre [stop [rest H]]].
    exists pre, stop, rest. exact H.
  - rewrite Hrange.
    destruct (rangeLoop_stops_at_first_false (fun _ _ => true)
                (map_to_list (view h t)) [])
      as [pre [stop [rest [He [Hr [_ Hs]]]]]].
    destruct Hs as [[-> ->]|[e [_ Hfalse]]]; [|done].
    rewrite app_nil_r in He, Hr. simpl in Hr.
    exists pre. rewrite Hr, <- He.
    split; [done|]. split; [apply list_to_map_to_list|].
    split; [apply NoDup_fst_map_to_list | apply length_map_to_list].
  - rewrite Hrange.
    destruct (rangeLoop_stops_at_first_false (fun _ _ => false)
                (map_to_list (view h t)) [])
      as [pre [stop [rest [He [Hr [Hpre Hs]]]]]].
    assert (pre = []) as ->.
    { destruct pre as [|e pre]; [done|]. by inversion Hpre. }
    simpl in He, Hr. exists stop. split; [exact Hr|].
    rewrite <- (length_map_to_list (view h t)), He.
    destruct Hs as [[-> ->]|[e [-> _]]]; simpl; [done|].
    by destruct rest.
Qed.

(** X3.  In [Union] the last argument that holds a key decides its value;
    a key that no argument holds keeps the value it has in the receiver, if
    any. *)
Theorem Union_last_wins (t : Tags) (tags : list Tags) (h : Heap)
    (k : string) :
  allocated h t -> Forall (allocated h) tags ->
  let u := Union t tags h in
  (forall (before : list Tags) (tg : Tags) (after : list Tags) (v : any),
     tags = before ++ tg :: after ->
     view h tg !! k = Some v ->
     Forall (fun y => view h y !! k = None) after ->
     view u.2 u.1 !! k = Some v)
  /\ (Forall (fun y => view h y !! k = None) tags ->
      view u.2 u.1 !! k = view h t !! k).
Proof.
  intros Ht Htags. cbv zeta. rewrite (Union_fresh t tags h Ht Htags).
  cbn [fst snd]. destruct h as [n objs]. cbn [nextMux mapObjs].
  rewrite view_fresh. split.
  - intros before tg after v -> Hv Hafter. by apply foldl_union_last.
  - intros Hnone. by apply foldl_union_absent.
Qed.

Lemma Union_last_wins_witness :
  allocated sampleHeap zeroTags
  /\ Forall (allocated sampleHeap) [sampleTags; zeroTags]
  /\ view (Union zeroTags [sampleTags; zeroTags] sampleHeap).2
          (Union zeroTags [sampleTags; zeroTags] sampleHeap).1 !! "svc"
     = Some (AnyString "myService")
  /\ view (Union zeroTags [sampleTags; zeroTags] sampleHeap).2
          (Union zeroTags [sampleTags; zeroTags] sampleHeap).1 !! "other"
     = view sampleHeap zeroTags !! "other".
Proof.
  assert (H0 : allocated sampleHeap zeroTags) by exact I.
  assert (H1 : allocated sampleHeap sampleTags)
    by (unfold allocated; simpl; lia).
  assert (H2 : Forall (allocated sampleHeap) [sampleTags; zeroTags])
    by (repeat constructor; assumption).
  split; [exact H0|]. split; [exact H2|]. split.
  - apply (proj1 (Union_last_wins zeroTags [sampleTags; zeroTags] sampleHeap
                    "svc" H0 H2) [] sampleTags [zeroTags]
                 (AnyString "myService") eq_refl).
    + vm_compute. reflexivity.
    + repeat constructor.
  - apply (proj2 (Union_last_wins zeroTags [sampleTags; zeroTags] sampleHeap
                    "other" H0 H2)).
    repeat constructor.
Defined.

(** X4.  [NewTags] returns a newly allocated, initialised set and leaves
    the heap it found as it was; the last map that holds a key decides its
    value, a key that no map holds is absent, and a single map is copied
    entry for entry. *)
Theorem NewTags_last_wins (mapsToUnion : list (gmap string any)) (h : Heap)
    (k : string) :
  let r := NewTags mapsToUnion h in
  IsValid r.1 = true
  /\ m r.1 = Some (length (mapObjs h))
  /\ take (length (mapObjs h)) (mapObjs r.2) = mapObjs h
  /\ length (mapObjs r.2) = S (length (mapObjs h))
  /\ (forall (before : list (gmap string any)) (mp : gmap string any)
             (after : list (gmap string any)) (v : any),
        mapsToUnion = before ++ mp :: after ->
        mp !! k = Some v ->
        Forall (fun y => y !! k = None) after ->
        view r.2 r.1 !! k = Some v)
  /\ (Forall (fun y => y !! k = None) mapsToUnion ->
      view r.2 r.1 !! k = None)
  /\ (forall mp : gmap string any,
        mapsToUnion = [mp] -> view r.2 r.1 = mp).
Proof.
  cbv zeta.
  assert (Hshape : NewTags mapsToUnion h
    = allocMap (foldl (fun a mp => mp ∪ a) ∅ mapsToUnion) h).
  { unfold NewTags, newSafeMap. destruct mapsToUnion as [|mp rest]; [done|].
    f_equal. generalize (mp :: rest). intros l.
    generalize (∅ : gmap string any).
    induction l as [|x l IH]; intros acc; simpl; [done|].
    by rewrite IH, copyInto_union. }
  rewrite Hshape. unfold allocMap. cbn [fst snd mapObjs m].
  destruct h as [n objs]. cbn [nextMux mapObjs]. rewrite view_fresh.
  split; [done|]. split; [done|].
  split; [by rewrite take_app_length|].
  split; [rewrite length_app; simpl; lia|].
  split; [|split].
  - intros before mp after v -> Hv Hafter.
    by apply (foldl_union_last (fun mp => mp)).
  - intros Hnone.
    by rewrite (foldl_union_absent (fun mp => mp) k mapsToUnion ∅ Hnone).
  - intros mp ->. simpl. by rewrite (right_id_L ∅ (∪)).
Qed.

End TagsFacts.

Module ConfigFacts.
Import SafeMaps SafeMapsFacts Tracer GlobalTags Samples TagsFacts.

Lemma length_pos_nonempty (s : string) :
  (0 <? String.length s)%nat = true <-> s <> "".
Proof. destruct s; simpl; split; intros H; done. Qed.

Lemma orDefault_nonempty (s dflt : string) :
  dflt <> "" -> orDefault s dflt <> "".
Proof.
  intros Hd. unfold orDefault. destruct s; simpl; [done|]. discriminate.
Qed.

Lemma orDefault_keeps (s dflt : string) : s <> "" -> orDefault s dflt = s.
Proof. intros Hs. unfold orDefault. by destruct s. Qed.

Lemma lookup_setIfPresent (key value : string) (g : gmap string string)
    (k v : string) :
  setIfPresent key value g !! k = Some v
  <-> (k = key /\ v = value /\ value <> "")
      \/ ((k <> key \/ value = "") /\ g !! k = Some v).
Proof.
  unfold setIfPresent. destruct value as [|a value]; simpl.
  - split; [intros H; right; auto|]. intros [[_ [_ H]]|[_ H]]; done.
  - rewrite lookup_insert_Some. split.
    + intros [[<- <-]|[Hne H]]; [left; done | right; auto].
    + intros [[-> [-> _]]|[[Hne|Hempty] H]]; [left; done | right; done | done].
Qed.

(** X5.  [WithGlobalTags] on an initialised set returns a newly allocated
    set that holds the tags of the receiver and, for the keys the receiver
    does not hold, the global tags of the configuration; the maps that
    existed before are left as they were.  On a set that was never
    initialised it panics on the nil lock. *)
Theorem WithGlobalTags_own_tags_override (config : option Config) (t : Tags)
    (h : Heap) :
  allocated h t ->
  (IsValid t = true ->
   exists (u : Tags) (h' : Heap),
     WithGlobalTags config t h = (Return u, h')
     /\ IsValid u = true
     /\ m u = Some (length (mapObjs h))
     /\ take (length (mapObjs h)) (mapObjs h') = mapObjs h
     /\ length (mapObjs h') = S (length (mapObjs h))
     /\ (forall k : string,
           view h' u !! k
           = match view h t !! k with
             | Some v => Some v
             | None => AnyString <$> GlobalTagsMap config !! k
             end))
  /\ (IsValid t = false ->
      (WithGlobalTags config t h).1 = Panic nilDereference).
Proof.
  intros Ht. unfold WithGlobalTags, newSafeMap, allocMap, IsValid.
  destruct h as [n objs]. cbn [nextMux mapObjs].
  rewrite rangeCopy_fresh.
  destruct (mux t) as [mu|] eqn:Hmux; split; try done; intros _.
  assert (Hd : deref {| nextMux := S n;
                        mapObjs := objs ++
                          [(AnyString <$> GlobalTagsMap config) ∪ ∅] |} (m t)
               = view {| nextMux := n; mapObjs := objs |} t).
  { unfold view, IsValid. rewrite Hmux. unfold allocated in Ht. unfold deref.
    destruct (m t) as [i|]; simpl in *; [|done]. by rewrite lookup_app_l. }
  rewrite Hd, rangeCopy_fresh. eexists _, _.
  split; [reflexivity|]. cbn [mux m mapObjs].
  split; [done|]. split; [done|].
  split; [by rewrite take_app_length|].
  split; [rewrite length_app; simpl; lia|].
  intros k. rewrite view_fresh, lookup_union, (right_id_L ∅ (∪)), lookup_fmap.
  destruct (view {| nextMux := n; mapObjs := objs |} t !! k) as [v|];
    destruct (GlobalTagsMap config !! k); done.
Qed.

Lemma WithGlobalTags_own_tags_override_witness :
  allocated sampleHeap sampleTags
  /\ exists (u : Tags) (h' : Heap),
       WithGlobalTags None sampleTags sampleHeap = (Return u, h')
       /\ IsValid u = true
       /\ m u = Some (length (mapObjs sampleHeap))
       /\ take (length (mapObjs sampleHeap)) (mapObjs h') = mapObjs sampleHeap
       /\ length (mapObjs h') = S (length (mapObjs sampleHeap))
       /\ (forall k : string,
             view h' u !! k
             = match view sampleHeap sampleTags !! k with
               | Some v => Some v
               | None => AnyString <$> GlobalTagsMap None !! k
               end).
Proof.
  assert (H1 : allocated sampleHeap sampleTags)
    by (unfold allocated; simpl; lia).
  split; [exact H1|].
  exact (proj1 (WithGlobalTags_own_tags_override None sampleTags sampleHeap H1)
               eq_refl).
Defined.

(** X6.  [GlobalTagsMap] holds exactly the four global tags whose field of
    the configuration is not empty, each under its own key; no value of the
    map is empty.  After [validateConfig] all four are present, and the nil
    receiver yields those of the default configuration. *)
Theorem GlobalTagsMap_holds_nonempty_fields (c : Config) (k v : string) :
  (GlobalTagsMap (Some c) !! k = Some v
   <-> v <> ""
       /\ ((k = "deployment.environment" /\ v = EnvName c)
           \/ (k = "deployment.chain_id" /\ v = ChainID c)
           \/ (k = "service.name" /\ v = ServiceName c)
           \/ (k = "service.version" /\ v = ServiceVersion c)))
  /\ (forall cfg : option Config,
        size (GlobalTagsMap (Some (validateConfig cfg))) = 4)
  /\ GlobalTagsMap None
     = {[ "deployment.environment" := "local";
          "deployment.chain_id" := "localnet-1337";
          "service.name" := "unknown";
          "service.version" := "dev" ]}.
Proof.
  split; [|split].
  - unfold GlobalTagsMap. rewrite !lookup_setIfPresent, lookup_empty.
    split.
    + intros [[-> [-> H]]|[_ [[-> [-> H]]|[_ [[-> [-> H]]|[_ [[-> [-> H]]|[_ H]]]]]]]];
        try done; split; auto 6.
    + intros [Hv [[-> ->]|[[-> ->]|[[-> ->]|[-> ->]]]]].
      * right. split; [by left|]. right. split; [by left|].
        right. split; [by left|]. by left.
      * right. split; [by left|]. right. split; [by left|]. by left.
      * right. split; [by left|]. by left.
      * by left.
  - intros cfg. unfold GlobalTagsMap, setIfPresent, validateConfig.
    cbn [EnvName ChainID ServiceName ServiceVersion].
    assert (Hpos : forall s d, d <> "" ->
              (0 <? String.length (orDefault s d))%nat = true).
    { intros s d Hd. apply length_pos_nonempty. by apply orDefault_nonempty. }
    rewrite !Hpos by done.
    rewrite !map_size_insert_None, map_size_empty; [done|..];
      rewrite ?lookup_insert_ne by done; apply lookup_empty.
  - vm_compute. reflexivity.
Qed.

Lemma validateConfig_timeout (cfg : option Config) :
  (second <= StuckFunctionTimeout (validateConfig cfg))%Z.
Proof.
  unfold validateConfig. cbn [StuckFunctionTimeout].
  match goal with
  | |- context [(?d <? second)%Z] => destruct (Z.ltb_spec d second)
  end; [unfold minute, second; lia | done].
Qed.


End ConfigFacts.

Module PipelineFacts.
Import SafeMaps Otel Tracer Pipeline.

Lemma consistent_fields (w w' : World) :
  spans w' = spans w -> exported w' = exported w ->
  consistent w -> consistent w'.
Proof. unfold consistent. intros -> ->. done. Qed.

Lemma isRecording_setStatus c d s :
  isRecording (setStatus c d s) = isRecording s.
Proof.
  unfold setStatus. destruct (isRecording s) eqn:H; [|done].
  by destruct (codeRank c <? codeRank (statusCode s))%nat.
Qed.

Lemma isRecording_setAttributes kvs s :
  isRecording (setAttributes kvs s) = isRecording s.
Proof. unfold setAttributes. by destruct (isRecording s) eqn:H. Qed.

Lemma isRecording_recordError e attrs st s :
  isRecording (recordError e attrs st s) = isRecording s.
Proof.
  unfold recordError. destruct e; [|done]. by destruct (isRecording s) eqn:H.
Qed.

Lemma consistent_alter (g : Span -> Span) (id : SpanId) (w : World) :
  (forall s, isRecording (g s) = isRecording s) ->
  consistent w -> consistent (withSpans (alter g id) w).
Proof.
  intros Hg [Hnd Hiff]. split; [done|]. intros j. cbn [withSpans spans exported].
  rewrite Hiff. destruct (decide (j = id)) as [->|Hne].
  - rewrite list_lookup_alter_eq. split.
    + intros [s [Hs Hr]]. exists (g s). rewrite Hs. split; [done|].
      by rewrite Hg.
    + intros [s' [Hs Hr]]. destruct (spans w !! id) as [s|]; [|done].
      exists s. split; [done|]. simpl in Hs. injection Hs as <-.
      by rewrite Hg in Hr.
  - by rewrite list_lookup_alter_ne.
Qed.

Lemma consistent_SetStatus id c d w :
  consistent w -> consistent (SetStatus id c d w).
Proof. apply consistent_alter, isRecording_setStatus. Qed.

Lemma consistent_SetAttributes id kvs w :
  consistent w -> consistent (SetAttributes id kvs w).
Proof. apply consistent_alter, isRecording_setAttributes. Qed.

Lemma consistent_RecordError id e attrs st w :
  consistent w -> consistent (RecordError id e attrs st w).
Proof. apply consistent_alter, isRecording_recordError. Qed.

Lemma consistent_End id ts w : consistent w -> consistent (End id ts w).
Proof.
  intros [Hnd Hiff]. unfold End, IsRecording.
  destruct (spans w !! id) as [s|] eqn:Hs; [|done].
  destruct (isRecording s) eqn:Hrec; [|done].
  assert (Hfresh : id ∉ exported w).
  { intros Hin. apply Hiff in Hin. destruct Hin as [s' [Hs' Hr]].
    congruence. }
  split; cbn [withExported withSpans spans exported].
  - apply NoDup_app. split; [done|]. split; [|apply NoDup_singleton].
    intros x Hx Hx'. apply list_elem_of_singleton in Hx'. by subst.
  - intros j. rewrite elem_of_app, list_elem_of_singleton, Hiff.
    destruct (decide (j = id)) as [->|Hne].
    + rewrite list_lookup_alter_eq, Hs. simpl. split.
      * intros _. eexists. split; [done|].
        unfold endAt. rewrite Hrec. done.
      * auto.
    + rewrite list_lookup_alter_ne by done. split; [|auto].
      intros [H|H]; done.
Qed.

Lemma consistent_open (new : list Span) (w : World) :
  Forall (fun s => isRecording s = true) new ->
  consistent w -> consistent (withSpans (fun l => l ++ new) w).
Proof.
  intros Hnew [Hnd Hiff]. split; [done|]. intros j.
  cbn [withSpans spans exported]. rewrite Hiff.
  destruct (decide (j < length (spans w))) as [Hlt|Hge].
  - by rewrite lookup_app_l.
  - rewrite lookup_app_r by lia. split.
    + intros [s [Hs _]]. apply lookup_lt_Some in Hs. lia.
    + intros [s [Hs Hr]]. exfalso.
      rewrite Forall_forall in Hnew.
      assert (Hin : s ∈ new) by (eapply list_elem_of_lookup_2; eauto).
      specialize (Hnew s Hin). congruence.
Qed.

Lemma consistent_log l msg fs w : consistent w -> consistent (log l msg fs w).
Proof. by apply consistent_fields. Qed.

Lemma consistent_recovered what cs r w :
  consistent w -> consistent (recovered what cs r w).
Proof. by apply consistent_fields. Qed.

Lemma consistent_tracerStart t ctx spanName attrs timestamp newRoot w :
  consistent w ->
  consistent (tracerStart t ctx spanName attrs timestamp newRoot w).2.
Proof.
  intros H. unfold tracerStart. destruct (tracer t); [|done].
  cbn [snd]. apply consistent_open; [|done]. by repeat constructor.
Qed.

Lemma consistent_framesLoop FuncName t timestamp frames attributes (i : nat) :
  forall ctx newSpan acc w,
    consistent w ->
    consistent
      (framesLoop FuncName t timestamp frames attributes i ctx newSpan acc w).2.
Proof.
  induction i as [|j IH]; intros ctx newSpan acc w H; [done|].
  cbn [framesLoop]. destruct (frames !! S j) as [frame|]; [|done].
  destruct (String.eqb (Function frame) "runtime.main"
            || String.eqb (Function frame) "main.main"); [by apply IH|].
  unfold mbind, M_bind, bind.
  pose proof (consistent_tracerStart t ctx (FuncName (Function frame))
                attributes (Some timestamp)
                (match newSpan with None => true | Some _ => false end) w H)
    as Hstart.
  destruct (tracerStart t ctx (FuncName (Function frame)) attributes
              (Some timestamp)
              (match newSpan with None => true | Some _ => false end) w)
    as [[[ctx' s]|e] w'] eqn:Hts; cbn [snd] in *; [|done].
  by apply IH.
Qed.

Lemma consistent_callStackFramesToSpans FuncName t timestamp frames attributes
    w :
  consistent w ->
  consistent (callStackFramesToSpans FuncName t timestamp frames attributes w).2.
Proof.
  intros H. unfold callStackFramesToSpans.
  destruct (length frames <=? 2)%nat; [done|].
  by apply consistent_framesLoop.
Qed.

Lemma consistent_traceStart FuncName t cs h ctx funcName virtualTrace tags w :
  consistent w ->
  consistent (traceStart FuncName t cs h ctx funcName virtualTrace tags w).2.
Proof.
  intros H. unfold traceStart.
  destruct (mergedAttributes h tags) as [attrs|e]; [|done].
  set (virtual := match ctx with None => true | Some _ => virtualTrace end).
  assert (Hv : consistent
    ((if virtual
      then callStackFramesToSpans FuncName t (clock w) (GetStackFrames cs) attrs
      else ret (default Background ctx, [])) w).2).
  { destruct virtual; [by apply consistent_callStackFramesToSpans | done]. }
  destruct ((if virtual
      then callStackFramesToSpans FuncName t (clock w) (GetStackFrames cs) attrs
      else ret (default Background ctx, [])) w)
    as [[[ctx1 parentSpans]|e] w1]; cbn [snd] in *; [|done].
  pose proof (consistent_tracerStart t ctx1 funcName attrs None false w1 Hv)
    as Hstart.
  destruct (tracerStart t ctx1 funcName attrs None false w1)
    as [[[modifiedContext span]|e] w2]; cbn [snd] in *; [|done].
  destruct (StuckFunctionWatchdog (config t));
    by apply (consistent_fields w2).
Qed.

Lemma consistent_guarded what cs r :
  consistent r.2 -> consistent (guarded what cs r).2.
Proof.
  destruct r as [[[f|e] c] w]; cbn [snd guarded]; [done|].
  apply consistent_recovered.
Qed.

Lemma consistent_endLoop (l : list SpanId) (now : Time) :
  forall w, consistent w -> consistent (endLoop l now w).
Proof.
  induction l as [|s l IH]; intros w H; [done|].
  cbn [endLoop]. by apply IH, consistent_End.
Qed.

Lemma consistent_invoke f w : consistent w -> consistent (invoke f w).2.
Proof.
  intros H. destruct f as [| |doneC span parentSpans parentSpansEndFn];
    [done|done|].
  unfold invoke, closeChan.
  destruct (doneCs w !! doneC) as [[|]|]; [done| |done].
  cbn [snd].
  set (w1 := withDoneCs (fun l => <[doneC:=true]> l) w).
  assert (H1 : consistent w1) by (by apply (consistent_fields w)).
  assert (H2 : consistent
    (if IsRecording span w1 then End span None (SetStatus span Ok "" w1)
     else w1)).
  { destruct (IsRecording span w1); [|done].
    by apply consistent_End, consistent_SetStatus. }
  destruct parentSpansEndFn; [by apply consistent_endLoop | done].
Qed.

Lemma consistent_errorClose cs h span err tags isNewSpan w :
  consistent w -> consistent (errorClose cs h span err tags isNewSpan w).2.
Proof.
  intros H. unfold errorClose.
  destruct (if (0 <? length tags)%nat && negb isNewSpan
            then mergedAttributes h tags else Return []) as [opts|e];
    cbn [snd].
  - by apply consistent_End, consistent_RecordError, consistent_SetStatus.
  - by apply consistent_SetStatus.
Qed.

Lemma consistent_TraceError FuncName t cs h ctx err tags w :
  consistent w -> consistent (TraceError FuncName t cs h ctx err tags w).
Proof.
  intros H. unfold TraceError. destruct err as [e|];
    [|by apply consistent_log].
  destruct (SpanFromContext (default Background ctx)) as [span|].
  - destruct (negb (IsRecording span w)); [done|].
    pose proof (consistent_errorClose cs h span e tags false w H) as Hc.
    destruct (errorClose cs h span e tags false w) as [[u|r] w2];
      cbn [snd] in Hc; [done | by apply consistent_recovered].
  - set (w0 := log LevelDebug "coretracer: TracelessError starts from"
                 [("function", FuncName (Function (GetCaller cs)))] w).
    assert (H0 : consistent w0) by (by apply consistent_log).
    pose proof (consistent_traceStart FuncName t cs h
                  (Some (default Background ctx))
                  (FuncName (Function (GetCaller cs))) true tags w0 H0) as Hs.
    destruct (traceStart FuncName t cs h (Some (default Background ctx))
                (FuncName (Function (GetCaller cs))) true tags w0)
      as [[[f|r] ctx'] w1]; cbn [snd] in Hs;
      [|by apply consistent_recovered].
    destruct (SpanFromContext (default Background ctx')) as [span|];
      [|by apply consistent_recovered].
    pose proof (consistent_errorClose cs h span e tags true w1 Hs) as Hc.
    destruct (errorClose cs h span e tags true w1) as [[u|r] w2];
      cbn [snd] in Hc; [done | by apply consistent_recovered].
Qed.

Lemma consistent_WithTags t cs h ctx tags w :
  consistent w -> consistent (WithTags t cs h ctx tags w).
Proof.
  intros H. unfold WithTags.
  destruct (SpanFromContext ctx) as [span|]; [|by apply consistent_log].
  destruct (mergedAttributes h tags) as [attrs|r];
    [by apply consistent_SetAttributes | by apply consistent_recovered].
Qed.

Lemma consistent_watchdogExpire i w :
  consistent w -> consistent (watchdogExpire i w).
Proof.
  intros H. unfold watchdogExpire.
  destruct (watchdogs w !! i) as [g|]; [|done].
  destruct (wdWaiting g && (wdDeadline g <=? clock w)%Z); [|done].
  set (w1 := withWatchdogs (alter (setWaiting false) i) w).
  assert (H1 : consistent w1) by (by apply (consistent_fields w)).
  destruct (negb (IsRecording (wdSpan g) w1)); [done|].
  by apply consistent_SetStatus, consistent_SetAttributes,
    consistent_RecordError.
Qed.

Lemma consistent_watchdogDone i w :
  consistent w -> consistent (watchdogDone i w).
Proof.
  intros H. unfold watchdogDone.
  destruct (watchdogs w !! i) as [g|]; [|done].
  destruct (wdWaiting g && default false (doneCs w !! wdDoneC g)); [|done].
  by apply (consistent_fields w).
Qed.

Lemma consistent_attempts FuncName t h f ctx (l : list Lifecycle.Attempt) :
  forall w, consistent w ->
            consistent (Lifecycle.attempts FuncName t h f ctx l w).2.
Proof.
  induction l as [|a l IH]; intros w H; [done|].
  cbn [Lifecycle.attempts].
  assert (Ha : consistent (Lifecycle.attempt FuncName t h f ctx a w).2).
  { destruct a; cbn [Lifecycle.attempt snd].
    - by apply consistent_invoke.
    - by apply consistent_TraceError.
    - by apply consistent_watchdogExpire.
    - by apply consistent_watchdogDone.
    - by apply (consistent_fields w). }
  destruct (Lifecycle.attempt FuncName t h f ctx a w) as [[u|e] w'];
    cbn [snd] in Ha; [by apply IH | done].
Qed.

Lemma consistent_emptyWorld : consistent emptyWorld.
Proof.
  split; [constructor|]. intros id. split.
  - intros H. by apply elem_of_nil in H.
  - intros [s [Hs _]]. done.
Qed.



End PipelineFacts.

Module ClosedEngine.
Import SafeMaps Otel Tracer.

Lemma tracerStart_closed t ctx spanName attrs timestamp newRoot w :
  tracer t = false ->
  tracerStart t ctx spanName attrs timestamp newRoot w
  = (Panic nilDereference, w).
Proof. intros H. unfold tracerStart. by rewrite H. Qed.

(** Without an exporter handle the loop either runs through without
    opening a span, or panics at the first frame that asks for one. *)
Lemma framesLoop_closed FuncName t timestamp frames attributes (i : nat) :
  tracer t = false ->
  forall ctx newSpan acc w,
    framesLoop FuncName t timestamp frames attributes i ctx newSpan acc w
    = (Return (ctx, acc), w)
    \/ exists e,
         framesLoop FuncName t timestamp frames attributes i ctx newSpan acc w
         = (Panic e, w).
Proof.
  intros Ht. induction i as [|j IH]; intros ctx newSpan acc w; [by left|].
  cbn [framesLoop]. destruct (frames !! S j) as [frame|]; [|right; eauto].
  destruct (String.eqb (Function frame) "runtime.main"
            || String.eqb (Function frame) "main.main"); [apply IH|].
  right. unfold mbind, M_bind, bind. rewrite tracerStart_closed by done.
  eauto.
Qed.

Lemma traceStart_closed FuncName t cs h ctx funcName virtualTrace tags w :
  tracer t = false ->
  exists e c,
    traceStart FuncName t cs h ctx funcName virtualTrace tags w
    = (Panic e, c, w)
    /\ (c = ctx \/ (c = Some Background /\ ctx <> None /\ virtualTrace = true)).
Proof.
  intros Ht. unfold traceStart.
  assert (Hstored : (match ctx with
                     | None => None
                     | Some _ => Some (default Background ctx)
                     end) = ctx) by (by destruct ctx).
  destruct (mergedAttributes h tags) as [attrs|e].
  2:{ exists e. eexists. split; [reflexivity|]. by left. }
  destruct ctx as [c0|]; cbn [default from_option id].
  - destruct virtualTrace.
    + unfold callStackFramesToSpans.
      destruct (length (GetStackFrames cs) <=? 2)%nat.
      * unfold ret. rewrite tracerStart_closed by done.
        eexists _, _. split; [reflexivity|]. right. done.
      * destruct (framesLoop_closed FuncName t (clock w) (GetStackFrames cs)
                    attrs (length (GetStackFrames cs) - 2) Ht Background None
                    [] w) as [Hr|[e Hp]].
        -- rewrite Hr, tracerStart_closed by done.
           eexists _, _. split; [reflexivity|]. right. done.
        -- rewrite Hp. eexists _, _. split; [reflexivity|]. by left.
    + unfold ret. rewrite tracerStart_closed by done.
      eexists _, _. split; [reflexivity|]. by left.
  - unfold callStackFramesToSpans.
    destruct (length (GetStackFrames cs) <=? 2)%nat.
    + unfold ret. rewrite tracerStart_closed by done.
      eexists _, _. split; [reflexivity|]. by left.
    + destruct (framesLoop_closed FuncName t (clock w) (GetStackFrames cs)
                  attrs (length (GetStackFrames cs) - 2) Ht Background None
                  [] w) as [Hr|[e Hp]].
      * rewrite Hr, tracerStart_closed by done.
        eexists _, _. split; [reflexivity|]. by left.
      * rewrite Hp. eexists _, _. split; [reflexivity|]. by left.
Qed.

(** X9.  An engine that has been closed opens no span any more: each of
    the four tracing entry points panics on the missing exporter handle (or
    earlier, on a tag that does not convert), recovers, reports the panic in
    two error records, and hands back the nil function, which panics when it
    is called.  No span, channel or watchdog is created.  [Trace] and
    [TraceWithName] leave the caller's context as it is; a virtual trace may
    have replaced it by the empty context. *)
Theorem closed_engine_opens_nothing (FuncName : string -> string)
    (t : otelTracer) (cs : CallSite) (h : Heap) (ctx : option Context)
    (name : string) (tags : list Tags) (w : World) :
  let t' := Close t in
  let funcName := FuncName (Function (GetCaller cs)) in
  let virtualContext (c : option Context) :=
    c = ctx \/ (c = Some Background /\ ctx <> None) in
  (exists e,
     Trace FuncName t' cs h ctx tags w
     = (NilFn, ctx, recovered "Trace()" cs e w))
  /\ (exists e,
        TraceWithName FuncName t' cs h ctx name tags w
        = (NilFn, ctx, recovered "TraceWithName()" cs e w))
  /\ (exists e c,
        Traceless FuncName t' cs h ctx tags w
        = (NilFn, c,
           recovered "Traceless()" cs e
             (log LevelDebug "coretracer: Traceless() starts from"
                [("function", funcName)] w))
        /\ virtualContext c)
  /\ (exists e c,
        TracelessWithName FuncName t' cs h ctx name tags w
        = (NilFn, c, recovered "TracelessWithName()" cs e w)
        /\ virtualContext c)
  /\ (forall what e w0,
        spans (recovered what cs e w0) = spans w0
        /\ exported (recovered what cs e w0) = exported w0
        /\ doneCs (recovered what cs e w0) = doneCs w0
        /\ watchdogs (recovered what cs e w0) = watchdogs w0
        /\ length (logs (recovered what cs e w0)) = 2 + length (logs w0))
  /\ (forall w0, invoke NilFn w0 = (Panic nilDereference, w0)).
Proof.
  cbv zeta.
  assert (Ht : tracer (Close t) = false) by done.
  refine (conj _ (conj _ (conj _ (conj _ (conj _ _))))).
  - unfold Trace.
    destruct (traceStart_closed FuncName (Close t) cs h ctx
                (FuncName (Function (GetCaller cs))) false tags w Ht)
      as [e [c [Hr Hc]]].
    rewrite Hr. exists e. cbn [guarded].
    destruct Hc as [->|[_ [_ Hv]]]; done.
  - unfold TraceWithName.
    destruct (traceStart_closed FuncName (Close t) cs h ctx name false tags w
                Ht) as [e [c [Hr Hc]]].
    rewrite Hr. exists e. cbn [guarded].
    destruct Hc as [->|[_ [_ Hv]]]; done.
  - unfold Traceless.
    destruct (traceStart_closed FuncName (Close t) cs h ctx
                (FuncName (Function (GetCaller cs))) true tags
                (log LevelDebug "coretracer: Traceless() starts from"
                   [("function", FuncName (Function (GetCaller cs)))] w) Ht)
      as [e [c [Hr Hc]]].
    rewrite Hr. exists e, c. cbn [guarded]. split; [done|].
    destruct Hc as [->|[-> [Hn _]]]; [by left | by right].
  - unfold TracelessWithName.
    destruct (traceStart_closed FuncName (Close t) cs h ctx name true tags w
                Ht) as [e [c [Hr Hc]]].
    rewrite Hr. exists e, c. cbn [guarded]. split; [done|].
    destruct Hc as [->|[-> [Hn _]]]; [by left | by right].
  - intros what e w0. unfold recovered, log.
    cbn [spans exported doneCs watchdogs logs].
    repeat split. rewrite !length_app. simpl. lia.
  - done.
Qed.

End ClosedEngine.

Module NestingFacts.
Import SafeMaps Otel Tracer Ancestry AncestryFacts CompletionFacts Samples.

Lemma invoke_pending (w : World) (doneC : nat) (sid : SpanId)
    (parentSpansEndFn : option Time) (s : Span) :
  spans w !! sid = Some s -> pending s -> doneCs w !! doneC = Some false ->
  invoke (EnderFn doneC sid [] parentSpansEndFn) w
  = (Return tt,
     {| spans := <[ sid := closedOk (clock w) s ]> (spans w);
        exported := exported w ++ [sid];
        clock := clock w;
        doneCs := <[ doneC := true ]> (doneCs w);
        watchdogs := watchdogs w;
        logs := logs w |}).
Proof.
  intros Hs Hp Hc. unfold invoke, closeChan. rewrite Hc.
  assert (Hok : setStatus Ok "" s
    = {| name := name s; parent := parent s;
         startTime := startTime s; endTime := endTime s;
         statusCode := Ok; statusDescription := "";
         attributes := attributes s; events := events s |})
    by (by apply SpanFacts.setStatus_lands).
  assert (Hclosed : endAt (clock w) (setStatus Ok "" s) = closedOk (clock w) s).
  { rewrite Hok. unfold endAt, isRecording. simpl.
    destruct Hp as [Hrec _]. unfold isRecording in Hrec.
    by destruct (endTime s). }
  set (w1 := withDoneCs (fun l => <[doneC:=true]> l) w).
  assert (Hrec1 : IsRecording sid w1 = true).
  { unfold IsRecording, w1. cbn [spans withDoneCs]. rewrite Hs. apply Hp. }
  rewrite Hrec1.
  assert (Hrec2 : IsRecording sid (SetStatus sid Ok "" w1) = true).
  { unfold IsRecording, w1. cbn [spans withDoneCs SetStatus withSpans].
    rewrite list_lookup_alter_eq, Hs. simpl. rewrite Hok. apply Hp. }
  assert (HE : End sid None (SetStatus sid Ok "" w1)
    = {| spans := <[ sid := closedOk (clock w) s ]> (spans w);
         exported := exported w ++ [sid];
         clock := clock w;
         doneCs := <[ doneC := true ]> (doneCs w);
         watchdogs := watchdogs w;
         logs := logs w |}).
  { unfold End. rewrite Hrec2.
    unfold withExported, withSpans, SetStatus, withSpans, w1, withDoneCs.
    cbn [spans exported clock doneCs watchdogs logs default from_option id].
    f_equal. rewrite list_alter_alter_eq.
    apply list_eq. intros j. destruct (decide (j = sid)) as [->|Hne].
    - rewrite list_lookup_alter_eq, Hs, list_lookup_insert_eq
        by (by eapply lookup_lt_Some).
      simpl. by rewrite Hclosed.
    - by rewrite list_lookup_alter_ne, list_lookup_insert_ne. }
  rewrite HE. by destruct parentSpansEndFn.
Qed.

(** X10.  Two calls of [Trace] through the same context nest: the span
    of the second call is the child of the span of the first, which is the
    child of the span the context carried before.  When the completion
    functions are called innermost first, both return, both spans are closed
    with success at the time of their completion, and the exporter receives
    the inner span before the outer one.  Time may pass between the
    calls. *)
Theorem nested_traces_end_inner_first (FuncName : string -> string)
    (t : otelTracer) (cs1 cs2 : CallSite) (h : Heap) (ctx : Context)
    (tags1 tags2 : list Tags) (attrs1 attrs2 : list KeyValue) (w : World)
    (d1 d2 d3 : Time) :
  tracer t = true ->
  mergedAttributes h tags1 = Return attrs1 ->
  mergedAttributes h tags2 = Return attrs2 ->
  exists f1 c1 w1 f2 c2 w2 w3 w4,
    Trace FuncName t cs1 h (Some ctx) tags1 w = (f1, Some c1, w1)
    /\ Trace FuncName t cs2 h (Some c1) tags2 (tick d1 w1) = (f2, Some c2, w2)
    /\ invoke f2 (tick d2 w2) = (Return tt, w3)
    /\ invoke f1 (tick d3 w3) = (Return tt, w4)
    /\ (let n := length (spans w) in
        c1 = ContextWithSpan ctx n
       /\ c2 = ContextWithSpan ctx (S n)
       /\ spans w4
          = spans w ++
            [ closedOk (clock w4)
                (freshSpan (FuncName (Function (GetCaller cs1))) (ctxSpan ctx)
                   (clock w) attrs1);
              closedOk (clock w3)
                (freshSpan (FuncName (Function (GetCaller cs2))) (Some n)
                   (clock w2) attrs2) ]
       /\ exported w4 = exported w ++ [S n; n]
       /\ (clock w <= clock w2)%Z /\ (clock w2 <= clock w3)%Z
       /\ (clock w3 <= clock w4)%Z).
Proof.
  intros Ht Ha1 Ha2. unfold Trace.
  rewrite (traceStart_returns FuncName t cs1 h (Some ctx) _ false tags1 attrs1
             w Ht Ha1).
  cbv zeta. cbn [guarded default from_option id chain length app].
  rewrite Nat.add_0_r.
  eexists _, _, _. do 5 eexists.
  split; [reflexivity|].
  rewrite (traceStart_returns FuncName t cs2 h (Some _) _ false tags2 attrs2
             _ Ht Ha2).
  cbv zeta. cbn [guarded default from_option id chain length app tick
                 withClock spans exported clock doneCs watchdogs logs
                 ctxSpan ContextWithSpan].
  rewrite Nat.add_0_r.
  split; [reflexivity|].
  cbn [tick withClock spans exported clock doneCs watchdogs logs seq].
  rewrite !length_app. cbn [length].
  rewrite <- !(app_assoc (spans w)), <- !(app_assoc (doneCs w)).
  cbn [app].
  erewrite (invoke_pending _ _ _ _
              (freshSpan (FuncName (Function (GetCaller cs2)))
                 (Some (length (spans w))) (clock w + Z.max 0 d1)%Z attrs2));
    [ | cbn [tick withClock spans]; rewrite lookup_app_r by lia;
        by replace (length (spans w) + 1 - length (spans w)) with 1 by lia
      | apply WatchdogFacts.freshSpan_pending
      | cbn [tick withClock doneCs]; rewrite lookup_app_r by lia;
        by replace (length (doneCs w) + 1 - length (doneCs w)) with 1 by lia ].
  cbn [spans exported clock doneCs watchdogs logs].
  split; [reflexivity|].
  cbn [tick withClock spans exported clock doneCs watchdogs logs seq].
  erewrite (invoke_pending _ _ _ _
              (freshSpan (FuncName (Function (GetCaller cs1)))
                 (ctxSpan ctx) (clock w) attrs1));
    [ | cbn [tick withClock spans]; rewrite list_lookup_insert_ne by lia;
        by apply list_lookup_middle
      | apply WatchdogFacts.freshSpan_pending
      | cbn [tick withClock doneCs]; rewrite list_lookup_insert_ne by lia;
        by apply list_lookup_middle ].
  split; [reflexivity|].
  cbv zeta. cbn [tick withClock spans exported clock doneCs watchdogs logs].
  split; [done|]. split; [unfold ContextWithSpan; simpl; do 2 f_equal; lia|].
  split.
  - rewrite insert_app_r_alt by lia.
    replace (length (spans w) + 1 - length (spans w)) with 1 by lia.
    rewrite insert_app_r_alt by lia.
    replace (length (spans w) - length (spans w)) with 0 by lia.
    reflexivity.
  - split; [|lia]. rewrite <- app_assoc. cbn [app].
    by replace (length (spans w) + 1) with (S (length (spans w))) by lia.
Qed.

Lemma nested_traces_end_inner_first_witness :
  tracer (sampleTracer true) = true
  /\ mergedAttributes sampleHeap [] = Return []
  /\ mergedAttributes sampleHeap [sampleTags]
     = Return [ {| Key := "svc"; Val := VString "myService" |} ]
  /\ exists f1 c1 w1 f2 c2 w2 w3 w4,
       Trace qualifiedName (sampleTracer true) siteFGH sampleHeap
         (Some Background) [] emptyWorld = (f1, Some c1, w1)
       /\ Trace qualifiedName (sampleTracer true) siteTest sampleHeap
            (Some c1) [sampleTags] (tick 1 w1) = (f2, Some c2, w2)
       /\ invoke f2 (tick 2 w2) = (Return tt, w3)
       /\ invoke f1 (tick 3 w3) = (Return tt, w4)
       /\ exported w4 = [1; 0].
Proof.
  assert (H1 : tracer (sampleTracer true) = true) by reflexivity.
  assert (H2 : mergedAttributes sampleHeap [] = Return [])
    by (vm_compute; reflexivity).
  assert (H3 : mergedAttributes sampleHeap [sampleTags]
               = Return [ {| Key := "svc"; Val := VString "myService" |} ])
    by (vm_compute; reflexivity).
  split; [exact H1|]. split; [exact H2|]. split; [exact H3|].
  destruct (nested_traces_end_inner_first qualifiedName (sampleTracer true)
              siteFGH siteTest sampleHeap Background [] [sampleTags] _ _
              emptyWorld 1 2 3 H1 H2 H3)
    as [f1 [c1 [w1 [f2 [c2 [w2 [w3 [w4 [Ha [Hb [Hc [Hd He]]]]]]]]]]]].
  exists f1, c1, w1, f2, c2, w2, w3, w4.
  split; [exact Ha|]. split; [exact Hb|]. split; [exact Hc|].
  split; [exact Hd|]. apply He.
Defined.

End NestingFacts.

Module VirtualTraceFacts.
Import SafeMaps Otel Tracer Ancestry AncestryFacts CompletionFacts Samples.

Lemma chain_parents FuncName start attrs (frames : list Frame) :
  forall (prev : option SpanId) (base k : nat) (s : Span),
    chain FuncName start attrs prev base frames !! k = Some s ->
    parent s = match k with 0 => prev | S j => Some (base + j) end.
Proof.
  induction frames as [|fr frames IH]; intros prev base k s Hk; [done|].
  destruct k as [|k]; simpl in Hk.
  - by inversion Hk.
  - rewrite (IH (Some base) (S base) k s Hk).
    destruct k as [|j]; f_equal; lia.
Qed.

(** X11.  A virtual trace starts a trace of its own, whatever the caller's
    context holds: [Traceless] and [TracelessWithName] give the same
    function, the same context and the same spans for any two contexts, the
    context handed back carries the new span and none of the marks of the
    old one, every span that is opened is a root or the child of a span
    opened by the same call, and the spans that existed are not touched.  A
    call through a nil context pointer opens the same spans. *)
Theorem virtual_trace_ignores_context (FuncName : string -> string)
    (t : otelTracer) (cs : CallSite) (h : Heap) (c1 c2 : Context)
    (name : string) (tags : list Tags) (attrs : list KeyValue) (w : World) :
  tracer t = true ->
  mergedAttributes h tags = Return attrs ->
  TracelessWithName FuncName t cs h (Some c1) name tags w
  = TracelessWithName FuncName t cs h (Some c2) name tags w
  /\ Traceless FuncName t cs h (Some c1) tags w
     = Traceless FuncName t cs h (Some c2) tags w
  /\ (TraceWithName FuncName t cs h None name tags w).2
     = (TracelessWithName FuncName t cs h (Some c1) name tags w).2
  /\ (let r := TracelessWithName FuncName t cs h (Some c1) name tags w in
      let n := length (spans w) in
      (exists c sid,
         r.1.2 = Some c /\ ctxSpan c = Some sid /\ n <= sid
         /\ spanDone c = false /\ spanError c = false /\ spanStuck c = false)
      /\ take n (spans r.2) = spans w
      /\ exported r.2 = exported w
      /\ (forall id s,
            spans r.2 !! id = Some s -> n <= id ->
            isRecording s = true
            /\ match parent s with
               | None => True
               | Some p => n <= p /\ p < id
               end)).
Proof.
  intros Ht Ha.
  assert (Hshape : forall c what funcName w0,
    guarded what cs (traceStart FuncName t cs h (Some c) funcName true tags w0)
    = guarded what cs
        (traceStart FuncName t cs h (Some Background) funcName true tags w0)).
  { intros c what funcName w0.
    by rewrite !(traceStart_returns FuncName t cs h (Some _) funcName true
                   tags attrs w0 Ht Ha). }
  split; [unfold TracelessWithName; by rewrite (Hshape c1), (Hshape c2)|].
  split; [unfold Traceless; by rewrite (Hshape c1), (Hshape c2)|].
  unfold TraceWithName, TracelessWithName.
  rewrite (traceStart_returns FuncName t cs h None name false tags attrs w
             Ht Ha).
  rewrite (traceStart_returns FuncName t cs h (Some c1) name true tags attrs w
             Ht Ha).
  cbv zeta. cbn [guarded fst snd spans exported].
  split; [done|].
  set (anc := ancestorFrames (GetStackFrames cs)).
  set (n := length (spans w)).
  split; [|split; [|split]].
  - eexists _, (n + length anc). split; [reflexivity|].
    split; [done|]. split; [lia|]. by destruct (length anc).
  - unfold n. by rewrite take_app_length.
  - done.
  - intros id s Hs Hid.
    rewrite lookup_app_r in Hs by done. fold n in Hs.
    destruct (decide (id - n < length anc)) as [Hlt|Hge].
    + rewrite lookup_app_l in Hs by (by rewrite length_chain).
      split.
      * pose proof (chain_recording FuncName (clock w) attrs None n anc) as Hr.
        rewrite Forall_forall in Hr. apply Hr.
        by eapply list_elem_of_lookup_2.
      * rewrite (chain_parents _ _ _ _ _ _ _ _ Hs).
        destruct (id - n) as [|j] eqn:Hk; [done|]. lia.
    + rewrite lookup_app_r in Hs by (rewrite length_chain; lia).
      rewrite length_chain in Hs.
      destruct (id - n - length anc) as [|k] eqn:Hk; [|done].
      simpl in Hs. injection Hs as <-. split; [done|].
      cbn [parent freshSpan].
      destruct (length anc) as [|k] eqn:Hlen; cbn [chainContext ctxSpan ContextWithSpan Background];
        [done|]. lia.
Qed.

Lemma virtual_trace_ignores_context_witness :
  tracer (sampleTracer true) = true
  /\ mergedAttributes sampleHeap [] = Return []
  /\ TracelessWithName qualifiedName (sampleTracer true) siteFGH sampleHeap
       (Some workContext) "work" [] workWorld
     = TracelessWithName qualifiedName (sampleTracer true) siteFGH sampleHeap
         (Some Background) "work" [] workWorld.
Proof.
  assert (H1 : tracer (sampleTracer true) = true) by reflexivity.
  assert (H2 : mergedAttributes sampleHeap [] = Return [])
    by (vm_compute; reflexivity).
  split; [exact H1|]. split; [exact H2|].
  exact (proj1 (virtual_trace_ignores_context qualifiedName
                  (sampleTracer true) siteFGH sampleHeap workContext
                  Background "work" [] [] workWorld H1 H2)).
Defined.

End VirtualTraceFacts.

Module StackTraceFacts.
Import Otel Tracer Ancestry StackTrace Samples.

Lemma append_cons (x : Ascii.ascii) (a b : string) :
  String x a +:+ b = String x (a +:+ b).
Proof. reflexivity. Qed.

Lemma append_assoc (a b c : string) : (a +:+ b) +:+ c = a +:+ b +:+ c.
Proof.
  induction a as [|x a IH]; [done|]. by rewrite !append_cons, IH.
Qed.

Lemma append_nonempty_l (a b : string) : a <> "" -> a +:+ b <> "".
Proof. destruct a; [done|]. intros _. by rewrite append_cons. Qed.

Lemma append_nonempty_r (a b : string) : b <> "" -> a +:+ b <> "".
Proof. destruct a; [done|]. intros _. by rewrite append_cons. Qed.

Lemma frameText_nonempty (frame : Frame) : frameText frame <> "".
Proof. unfold frameText. by apply append_nonempty_r, append_nonempty_l. Qed.

Lemma length_nonempty (s : string) :
  s <> "" -> (0 <? String.length s)%nat = true.
Proof. by destruct s. Qed.

Lemma writeFrames_joins (frames : list Frame) :
  forall result : string,
    result <> "" ->
    writeFrames frames result
    = match frames with
      | [] => result
      | _ => result +:+ newline
               +:+ String.concat newline (frameText <$> frames)
      end.
Proof.
  induction frames as [|frame rest IH]; intros result Hne; [done|].
  cbn [writeFrames]. rewrite (length_nonempty _ Hne).
  fold (frameText frame).
  rewrite IH by (by apply append_nonempty_l, append_nonempty_l).
  destruct rest as [|next rest]; cbn [fmap list_fmap String.concat].
  - by rewrite append_assoc.
  - by rewrite !append_assoc.
Qed.

Lemma concat_nonempty (frames : list Frame) :
  frames <> [] -> String.concat newline (frameText <$> frames) <> "".
Proof.
  destruct frames as [|frame rest]; [done|]. intros _.
  cbn [fmap list_fmap String.concat]. destruct (frameText <$> rest) eqn:H.
  - apply frameText_nonempty.
  - apply append_nonempty_l, frameText_nonempty.
Qed.

(** X12.  The stack trace [TraceError] attaches to the event is the text
    of the frames [runtime.Callers] reports, at most 32 of them, each as its
    function and, on the next line after a tab, its file and line number,
    with one line break between two frames and none at the end.  It is empty
    exactly when no frame is reported, and exactly then the event gets no
    [exception.stacktrace] attribute. *)
Theorem stack_trace_is_joined_frames (cs : CallSite) (skip : nat) :
  let frames := take 32 (runtimeCallers cs skip) in
  captureErrorStackTrace cs skip
  = String.concat newline (frameText <$> frames)
  /\ (captureErrorStackTrace cs skip = "" <-> runtimeCallers cs skip = [])
  /\ (stackTraceOption cs = [] <-> runtimeCallers cs 3 = [])
  /\ (runtimeCallers cs 3 <> [] ->
      stackTraceOption cs
      = [ {| Key := "exception.stacktrace";
             Val := VString
                      (String.concat newline
                         (frameText <$> take 32 (runtimeCallers cs 3))) |} ]).
Proof.
  cbv zeta.
  assert (Htext : forall n,
    captureErrorStackTrace cs n
    = String.concat newline (frameText <$> take 32 (runtimeCallers cs n))).
  { intros n. unfold captureErrorStackTrace.
    destruct (take 32 (runtimeCallers cs n)) as [|frame rest]; [done|].
    cbn [length Nat.eqb writeFrames String.length Nat.ltb Nat.leb].
    change ("" +:+ Function frame +:+ newline +:+ tab +:+ File frame +:+ ":"
              +:+ pretty (Line frame)) with (frameText frame).
    rewrite writeFrames_joins by apply frameText_nonempty.
    by destruct rest. }
  assert (Hempty : forall n,
    captureErrorStackTrace cs n = "" <-> runtimeCallers cs n = []).
  { intros n. rewrite Htext. split.
    - intros H. destruct (runtimeCallers cs n) as [|frame rest]; [done|].
      exfalso. by apply (concat_nonempty (take 32 (frame :: rest))).
    - by intros ->. }
  split; [apply Htext|]. split; [apply Hempty|].
  unfold stackTraceOption.
  destruct (String.eqb_spec (captureErrorStackTrace cs 3) "") as [He|Hne].
  - split; [by rewrite <- Hempty|]. intros Hn. by apply Hempty in He.
  - split.
    + split; [done|]. intros H. by apply Hempty in H.
    + intros _. by rewrite Htext.
Qed.

End StackTraceFacts.

Module AttributeFacts.
Import SafeMaps SafeMapsFacts Otel Tracer Samples.

Lemma anyToOtalAttribute_key (k : string) (v : any) (kv : KeyValue) :
  anyToOtalAttribute k v = Return kv -> Key kv = k.
Proof.
  destruct v as [ | | | | | | | | | | | [?|] | [?|] | [?|] | [?|] | [?|]
                  | [?|] | [?|] | [?|] | [?|] | [?|] | | ];
    cbn; intros H; by inversion H.
Qed.

Lemma anyToOtalAttribute_panic (k : string) (v : any) (e : string) :
  anyToOtalAttribute k v = Panic e ->
  e = nilDereference /\ forall k', anyToOtalAttribute k' v = Panic e.
Proof.
  destruct v as [ | | | | | | | | | | | [?|] | [?|] | [?|] | [?|] | [?|]
                  | [?|] | [?|] | [?|] | [?|] | [?|] | | ];
    cbn; intros H; by inversion H.
Qed.

(** The function [traceStart], [TraceError] and [WithTags] hand to
    [Range]. *)
Local Abbreviation collect :=
  (fun k v attributes =>
     match anyToOtalAttribute k v with
     | Return kv => Return (attributes ++ [kv], true)
     | Panic e => Panic e
     end).

Lemma rangeLoop_converts (entries : list (string * any)) :
  forall acc : list KeyValue,
    match rangeLoop collect entries acc with
    | Return attrs =>
        exists out,
          attrs = acc ++ out
          /\ Forall2 (fun e kv => anyToOtalAttribute e.1 e.2 = Return kv)
               entries out
    | Panic e =>
        e = nilDereference
        /\ Exists (fun e => anyToOtalAttribute e.1 e.2 = Panic nilDereference)
             entries
    end.
Proof.
  induction entries as [|[k v] entries IH]; intros acc.
  - cbn. exists []. by rewrite app_nil_r.
  - cbn [rangeLoop]. destruct (anyToOtalAttribute k v) as [kv|e] eqn:Hkv.
    + specialize (IH (acc ++ [kv])).
      destruct (rangeLoop collect entries (acc ++ [kv])) as [attrs|e].
      * destruct IH as [out [-> Hout]]. exists (kv :: out).
        split; [by rewrite <- app_assoc|]. by constructor.
      * destruct IH as [-> Hex]. split; [done|]. by constructor 2.
    + destruct (anyToOtalAttribute_panic k v e Hkv) as [-> _].
      split; [done|]. by constructor.
Qed.

Lemma foldl_union_ext {A} (f g : A -> gmap string any) (l : list A) :
  forall acc : gmap string any,
    Forall (fun y => f y = g y) l ->
    foldl (fun a y => f y ∪ a) acc l = foldl (fun a y => g y ∪ a) acc l.
Proof.
  intros acc H. revert acc.
  induction H as [|y l Hy Hl IH]; intros acc; [done|].
  simpl. by rewrite Hy, IH.
Qed.

Lemma mergedAttributes_ranges_over_union (h : Heap) (tags : list Tags) :
  Forall (allocated h) tags ->
  mergedAttributes h tags
  = rangeLoop collect
      (map_to_list (foldl (fun a tg => view h tg ∪ a) ∅ tags)) [].
Proof.
  intros Htags. unfold mergedAttributes, NewTags, newSafeMap, allocMap.
  destruct h as [n objs]. cbn [nextMux mapObjs].
  rewrite Union_fresh.
  - cbn [nextMux mapObjs]. unfold Range. cbn [mux m].
    unfold deref. cbn [mapObjs].
    rewrite lookup_app_r by done. rewrite Nat.sub_diag. cbn [lookup].
    cbn [default from_option id list_lookup].
    assert (Hzero : view {| nextMux := S n; mapObjs := objs ++ [∅] |}
                      {| mux := Some n; m := Some (length objs) |} = ∅).
    { unfold view, IsValid, deref. cbn [mux m mapObjs].
      rewrite lookup_app_r by done. by rewrite Nat.sub_diag. }
    rewrite Hzero.
    rewrite (foldl_union_ext
               (view {| nextMux := S n; mapObjs := objs ++ [∅] |})
               (view {| nextMux := n; mapObjs := objs |})); [done|].
    eapply Forall_impl; [exact Htags|]. intros tg Htg. by apply view_app_l.
  - unfold allocated. cbn [m mapObjs]. rewrite length_app. simpl. lia.
  - eapply Forall_impl; [exact Htags|]. intros tg. unfold allocated.
    destruct (m tg); [|done]. cbn [mapObjs]. rewrite length_app. lia.
Qed.



End AttributeFacts.

Module ErrorFacts.
Import SafeMaps Otel Tracer Ancestry Samples.

Lemma alter_insert_at {A} (g : A -> A) (i : nat) (l : list A) (x : A) :
  l !! i = Some x -> alter g i l = <[ i := g x ]> l.
Proof.
  intros Hl. apply list_eq. intros j. destruct (decide (j = i)) as [->|Hne].
  - rewrite list_lookup_alter_eq, Hl, list_lookup_insert_eq
      by (by eapply lookup_lt_Some). done.
  - by rewrite list_lookup_alter_ne, list_lookup_insert_ne.
Qed.

Lemma setStatus_Error_lands (e : string) (s : Span) :
  pending s ->
  setStatus Error e s
  = {| name := name s; parent := parent s; startTime := startTime s;
       endTime := endTime s; statusCode := Error; statusDescription := e;
       attributes := attributes s; events := events s |}.
Proof. intros Hp. by apply SpanFacts.setStatus_lands. Qed.

(** X14.  [TraceError] with an error on a context whose span is still
    open closes that span: the span gets the status Error with the text of
    the error and one exception event, and ends now; the tags become
    attributes of the event, followed by the stack trace, and not attributes
    of the span; nothing is logged and no other span changes.  This does not
    depend on the engine, which may even be closed.  When a tag does not
    convert, the panic is recovered and reported after the status has been
    set: the span keeps the status Error but gets no event and stays
    open. *)
Theorem TraceError_closes_live_span (FuncName : string -> string)
    (t : otelTracer) (cs : CallSite) (h : Heap) (ctx : Context)
    (sid : SpanId) (s : Span) (e : string) (tags : list Tags) (w : World) :
  SpanFromContext ctx = Some sid ->
  spans w !! sid = Some s ->
  pending s ->
  let w' := TraceError FuncName t cs h (Some ctx) (Some e) tags w in
  (forall opts : list KeyValue,
     (if (0 <? length tags)%nat then mergedAttributes h tags else Return [])
     = Return opts ->
     w' = {| spans :=
               <[ sid := closedError (clock w) e (opts ++ stackTraceOption cs)
                           s ]> (spans w);
             exported := exported w ++ [sid];
             clock := clock w;
             doneCs := doneCs w;
             watchdogs := watchdogs w;
             logs := logs w |})
  /\ (forall r : string,
        tags <> [] -> mergedAttributes h tags = Panic r ->
        w' = recovered "TraceError()" cs r (SetStatus sid Error e w)
        /\ spans w' = <[ sid := setStatus Error e s ]> (spans w)
        /\ isRecording (setStatus Error e s) = true
        /\ statusCode (setStatus Error e s) = Error
        /\ events (setStatus Error e s) = events s
        /\ exported w' = exported w).
Proof.
  intros Hctx Hs Hp. cbv zeta. unfold TraceError.
  cbn [default from_option id]. rewrite Hctx.
  assert (Hrec : IsRecording sid w = true).
  { unfold IsRecording. rewrite Hs. apply Hp. }
  rewrite Hrec. cbn [negb]. unfold errorClose.
  rewrite andb_true_r.
  pose proof (setStatus_Error_lands e s Hp) as Hset.
  assert (Hrec1 : isRecording (setStatus Error e s) = true).
  { rewrite Hset. apply Hp. }
  split.
  - intros opts Hopts. rewrite Hopts.
    assert (Hopt2 :
      (if String.eqb (captureErrorStackTrace cs 3) "" then opts
       else opts ++ [ {| Key := "exception.stacktrace";
                         Val := VString (captureErrorStackTrace cs 3) |} ])
      = opts ++ stackTraceOption cs).
    { unfold stackTraceOption.
      destruct (String.eqb (captureErrorStackTrace cs 3) "");
        [by rewrite app_nil_r | done]. }
    rewrite Hopt2.
    set (o := opts ++ stackTraceOption cs).
    assert (Hrec2 : IsRecording sid
      (RecordError sid (Some (UserError e)) o false
         (SetStatus sid Error e w)) = true).
    { unfold IsRecording, RecordError, SetStatus, withSpans. cbn [spans].
      rewrite !list_lookup_alter_eq, Hs. cbn [fmap option_fmap option_map].
      unfold recordError. by rewrite Hrec1. }
    unfold End. rewrite Hrec2.
    unfold withExported, RecordError, SetStatus, withSpans.
    cbn [spans exported clock doneCs watchdogs logs default from_option id].
    assert (Hfinal :
      endAt (clock w) (recordError (Some (UserError e)) o false
                         (setStatus Error e s))
      = closedError (clock w) e o s).
    { unfold recordError. rewrite Hrec1. unfold endAt.
      unfold isRecording at 1. cbn [endTime].
      fold (isRecording (setStatus Error e s)). rewrite Hrec1.
      by rewrite Hset. }
    f_equal. rewrite !list_alter_alter_eq.
    rewrite (alter_insert_at _ _ _ _ Hs). f_equal.
    unfold compose. exact Hfinal.
  - intros r Hne Hr.
    assert (Hlen : (0 <? length tags)%nat = true) by (by destruct tags).
    rewrite Hlen, Hr.
    split; [done|]. unfold recovered, log, SetStatus, withSpans.
    cbn [spans exported].
    split; [by apply alter_insert_at|].
    split; [done|]. rewrite Hset. done.
Qed.

Lemma TraceError_closes_live_span_witness :
  SpanFromContext workContext = Some 0
  /\ spans workWorld !! 0 = Some (freshSpan "work" None 0%Z [])
  /\ pending (freshSpan "work" None 0%Z [])
  /\ exported
       (TraceError qualifiedName (sampleTracer true) siteFGH sampleHeap
          (Some workContext) (Some "boom") [] workWorld)
     = [0].
Proof.
  assert (H1 : SpanFromContext workContext = Some 0) by reflexivity.
  assert (H2 : spans workWorld !! 0 = Some (freshSpan "work" None 0%Z []))
    by reflexivity.
  assert (H3 : pending (freshSpan "work" None 0%Z [])) by (by split).
  split; [exact H1|]. split; [exact H2|]. split; [exact H3|].
  rewrite (proj1 (TraceError_closes_live_span qualifiedName
                    (sampleTracer true) siteFGH sampleHeap workContext 0 _
                    "boom" [] workWorld H1 H2 H3) [] eq_refl).
  reflexivity.
Defined.

End ErrorFacts.

Module WithTagsFacts.
Import SafeMaps Otel Tracer Ancestry Samples.


End WithTagsFacts.

Module RegistryLifecycle.
Import SafeMaps Otel Samples.
Import Registry.

(** X16.  After [Enable] with an exporter that initialises, the
    registry hands out a live engine built from the validated
    configuration, [Trace] delegates to it, and the global tags are those
    of the validated configuration.  [Close] and [Disable] then both
    return, clear the engine, and report the error of the exporter's
    shutdown if it has one; a second [Close] or [Disable] does nothing at
    all, and [Trace] is back to doing nothing.  The exporter's initialisation is taken to leave the
    configuration as it found it. *)
Theorem Enable_Close_round_trip (FuncName : string -> string)
    (cfg : option Tracer.Config)
    (exporterInitFn : option Tracer.Config -> option (option string))
    (shutdown : option string) (g : Globals) (w : World) :
  exporterInitFn cfg = Some shutdown ->
  let g1 := (Enable cfg exporterInitFn g w).1 in
  let g2 := {| tracer := None; exporterShutdownFn := Some shutdown;
               config := config g1 |} in
  let w2 := match shutdown with
            | None => w
            | Some err =>
                log LevelError "coretracer: failed to shutdown exporter"
                  [("error", err)] w
            end in
  (Enable cfg exporterInitFn g w).2 = w
  /\ DefaultTracer g1 = Some (Tracer.newOtelTracer cfg)
  /\ Tracer.tracer (Tracer.newOtelTracer cfg) = true
  /\ GlobalTags.GlobalTagsMap (config g1)
     = GlobalTags.GlobalTagsMap (Some (Tracer.validateConfig cfg))
  /\ (forall cs h ctx tags w0,
        Trace FuncName g1 cs h ctx tags w0
        = Tracer.Trace FuncName (Tracer.newOtelTracer cfg) cs h ctx tags w0)
  /\ Close g1 w = (Return tt, g2, w2)
  /\ Disable g1 w = (Return tt, g2, w2)
  /\ Close g2 w2 = (Return tt, g2, w2)
  /\ Disable g2 w2 = (Return tt, g2, w2)
  /\ spans w2 = spans w /\ exported w2 = exported w
  /\ (forall cs h ctx tags w0,
        Trace FuncName g2 cs h ctx tags w0 = (Tracer.NoopFn, ctx, w0)).
Proof.
  intros Hinit. cbv zeta. unfold Enable. rewrite Hinit. cbn [fst snd].
  split; [done|]. split; [done|]. split; [done|].
  split; [by destruct cfg|]. split; [done|].
  unfold Close, Disable, shutdownExporter.
  cbn [tracer exporterShutdownFn config].
  destruct shutdown as [err|]; repeat split; done.
Qed.

Lemma Enable_Close_round_trip_witness :
  (fun _ : option Tracer.Config => Some (Some "collector unreachable"))
    (Some (sampleConfig true)) = Some (Some "collector unreachable")
  /\ Close (Enable (Some (sampleConfig true))
              (fun _ => Some (Some "collector unreachable")) disabled
              emptyWorld).1 emptyWorld
     = (Return tt,
        {| tracer := None;
           exporterShutdownFn := Some (Some "collector unreachable");
           config := Some (Tracer.validateConfig (Some (sampleConfig true))) |},
        log LevelError "coretracer: failed to shutdown exporter"
          [("error", "collector unreachable")] emptyWorld).
Proof.
  split; [reflexivity|].
  destruct (Enable_Close_round_trip qualifiedName (Some (sampleConfig true))
              (fun _ => Some (Some "collector unreachable"))
              (Some "collector unreachable") disabled emptyWorld eq_refl)
    as [_ [_ [_ [_ [_ [Hclose _]]]]]].
  exact Hclose.
Defined.

(** X17.  When [Enable] is called while an engine is enabled and the
    exporter fails to initialise, the engine stays in place and keeps
    tracing, but the shutdown function is gone: a later [Close] clears the
    engine and then panics on the nil function, and a later [Disable] panics
    after closing the engine but before clearing it, so that the registry
    keeps handing calls to a closed engine, whose [Trace] returns the nil
    function. *)
Theorem failed_enable_disarms_shutdown (FuncName : string -> string)
    (cfg : option Tracer.Config)
    (exporterInitFn : option Tracer.Config -> option (option string))
    (t : Tracer.otelTracer) (g : Globals) (w : World) :
  exporterInitFn cfg = None ->
  tracer g = Some t ->
  let g1 := (Enable cfg exporterInitFn g w).1 in
  let w1 := (Enable cfg exporterInitFn g w).2 in
  let closed := {| tracer := Some (Tracer.Close t);
                   exporterShutdownFn := None; config := config g |} in
  DefaultTracer g1 = Some t
  /\ config g1 = config g
  /\ w1 = log LevelWarn "coretracer: failed to enable tracer" [] w
  /\ Close g1 w1
     = (Panic nilDereference,
        {| tracer := None; exporterShutdownFn := None; config := config g |},
        w1)
  /\ Disable g1 w1 = (Panic nilDereference, closed, w1)
  /\ (forall cs h ctx tags w0,
        exists e,
          Trace FuncName closed cs h ctx tags w0
          = (Tracer.NilFn, ctx, Tracer.recovered "Trace()" cs e w0)).
Proof.
  intros Hinit Ht. cbv zeta. unfold Enable. rewrite Hinit. cbn [fst snd].
  unfold DefaultTracer, Close, Disable, shutdownExporter.
  cbn [tracer exporterShutdownFn config]. rewrite Ht.
  cbn [tracer exporterShutdownFn config].
  repeat split; try done.
  intros cs h ctx tags w0. unfold Trace, Tracer.Trace. cbn [tracer].
  destruct (ClosedEngine.traceStart_closed FuncName (Tracer.Close t) cs h ctx
              (FuncName (Function (Tracer.GetCaller cs))) false tags w0
              eq_refl) as [e [c [Hr Hc]]].
  rewrite Hr. exists e. cbn [Tracer.guarded].
  destruct Hc as [->|[_ [_ Hv]]]; done.
Qed.

Lemma failed_enable_disarms_shutdown_witness :
  (fun _ : option Tracer.Config => @None (option string))
    (Some (sampleConfig true)) = None
  /\ tracer {| tracer := Some (sampleTracer true);
               exporterShutdownFn := Some None;
               config := Some (sampleConfig true) |}
     = Some (sampleTracer true)
  /\ (Close
        (Enable (Some (sampleConfig true)) (fun _ => None)
           {| tracer := Some (sampleTracer true);
              exporterShutdownFn := Some None;
              config := Some (sampleConfig true) |} emptyWorld).1
        (Enable (Some (sampleConfig true)) (fun _ => None)
           {| tracer := Some (sampleTracer true);
              exporterShutdownFn := Some None;
              config := Some (sampleConfig true) |} emptyWorld).2).1.1
     = Panic nilDereference.
Proof.
  split; [reflexivity|]. split; [reflexivity|].
  destruct (failed_enable_disarms_shutdown qualifiedName
              (Some (sampleConfig true)) (fun _ => None) (sampleTracer true)
              {| tracer := Some (sampleTracer true);
                 exporterShutdownFn := Some None;
                 config := Some (sampleConfig true) |} emptyWorld
              eq_refl eq_refl) as [_ [_ [_ [Hclose _]]]].
  by rewrite Hclose.
Defined.

End RegistryLifecycle.

Module UnionCopyFacts.
Import SafeMaps SafeMapsFacts Samples TagsFacts.

(** X18.  The set [Union] returns shares no map with the sets it was built
    from: a tag written to the result with [With] lands in the result and
    leaves the receiver and every argument as they were, and a tag written
    to the receiver or to an argument afterwards - whether that set is
    initialised or not - leaves the result as it was. *)
Theorem Union_result_shares_nothing (t : Tags) (tags : list Tags) (h : Heap)
    (k v : string) :
  allocated h t -> Forall (allocated h) tags ->
  let u := (Union t tags h).1 in
  let h1 := (Union t tags h).2 in
  (forall src : Tags,
     src ∈ t :: tags ->
     view (With u k v h1).2 src = view h src
     /\ view (With src k v h1).2 u = view h1 u)
  /\ (With u k v h1).1 = Return u
  /\ view (With u k v h1).2 u = <[ k := AnyString v ]> (view h1 u).
Proof.
  intros Ht Htags. cbv zeta. rewrite (Union_fresh t tags h Ht Htags).
  cbn [fst snd]. destruct h as [n objs]. cbn [nextMux mapObjs].
  set (U := foldl (fun a tg => view {| nextMux := n; mapObjs := objs |} tg ∪ a)
              (view {| nextMux := n; mapObjs := objs |} t) tags).
  set (u := {| mux := Some n; m := Some (length objs) |}).
  assert (Hu : forall n' objs' U' rest,
            length objs' = length objs ->
            view {| nextMux := n'; mapObjs := objs' ++ U' :: rest |} u = U').
  { intros n' objs' U' rest Hlen. unfold view, IsValid, u, deref.
    cbn [mux m mapObjs]. rewrite lookup_app_r by lia.
    by replace (length objs - length objs') with 0 by lia. }
  assert (Hwu : With u k v {| nextMux := S n; mapObjs := objs ++ [U] |}
    = (Return u,
       {| nextMux := S n;
          mapObjs := objs ++ [<[ k := AnyString v ]> U] |})).
  { unfold With, Set_. cbn [mux m u nextMux mapObjs]. do 2 f_equal.
    rewrite alter_app_r_alt by lia. by rewrite Nat.sub_diag. }
  rewrite Hwu. cbn [fst snd].
  split; [|split; [done | by rewrite !Hu]].
  intros src Hsrc.
  assert (Hall : allocated {| nextMux := n; mapObjs := objs |} src).
  { apply elem_of_cons in Hsrc. destruct Hsrc as [->|Hin]; [done|].
    rewrite Forall_forall in Htags. by apply Htags. }
  split; [by apply view_app_l|].
  rewrite Hu by done. unfold With.
  destruct (mux src) as [mu|] eqn:Hmux.
  - unfold Set_. rewrite Hmux. destruct (m src) as [i|] eqn:Hm.
    + cbn [snd nextMux mapObjs]. unfold allocated in Hall.
      rewrite Hm in Hall. cbn [mapObjs] in Hall.
      rewrite alter_app_l by done. apply Hu. apply length_alter.
    + cbn [snd]. by apply Hu.
  - unfold newSafeMapWith, allocMap. cbn [snd nextMux mapObjs].
    rewrite <- app_assoc. by apply Hu.
Qed.

Lemma Union_result_shares_nothing_witness :
  allocated sampleHeap sampleTags
  /\ Forall (allocated sampleHeap) [zeroTags]
  /\ view (With sampleTags "svc" "other"
             (Union sampleTags [zeroTags] sampleHeap).2).2
       (Union sampleTags [zeroTags] sampleHeap).1
     = view (Union sampleTags [zeroTags] sampleHeap).2
         (Union sampleTags [zeroTags] sampleHeap).1.
Proof.
  assert (H1 : allocated sampleHeap sampleTags)
    by (unfold allocated; simpl; lia).
  assert (H2 : Forall (allocated sampleHeap) [zeroTags])
    by (repeat constructor).
  split; [exact H1|]. split; [exact H2|].
  apply (proj1 (Union_result_shares_nothing sampleTags [zeroTags] sampleHeap
                  "svc" "other" H1 H2) sampleTags).
  apply elem_of_cons. by left.
Defined.

End UnionCopyFacts.

Module WatchdogDelay.
Import SafeMaps Otel Tracer Ancestry AncestryFacts Samples.

(** X19.  An engine built by [newOtelTracer] spawns one watchdog per
    traced call when the watchdog is configured, and none otherwise.  The
    watchdog belongs to the span and the channel of the completion function
    the call returns, carries the name of the call, and its deadline is never
    less than one second after the start of the call, whatever timeout was
    configured: before one second has passed, the expiry step of that
    watchdog does nothing. *)
Theorem watchdog_waits_at_least_a_second (FuncName : string -> string)
    (cfg : option Config) (cs : CallSite) (h : Heap) (ctx : option Context)
    (funcName : string) (virtualTrace : bool) (tags : list Tags)
    (attrs : list KeyValue) (w : World) :
  mergedAttributes h tags = Return attrs ->
  let t := newOtelTracer cfg in
  let r := traceStart FuncName t cs h ctx funcName virtualTrace tags w in
  let i := length (watchdogs w) in
  (StuckFunctionWatchdog (config t) = false -> watchdogs r.2 = watchdogs w)
  /\ (StuckFunctionWatchdog (config t) = true ->
      exists g sid,
        watchdogs r.2 = watchdogs w ++ [g]
        /\ r.1.1 = Return (EnderFn (wdDoneC g) sid
                             (seq (length (spans w))
                                (sid - length (spans w)))
                             (if match ctx with
                                 | None => true
                                 | Some _ => virtualTrace
                                 end
                              then Some (clock w) else None))
        /\ wdSpan g = sid /\ wdName g = funcName /\ wdWaiting g = true
        /\ wdStart g = clock w
        /\ (clock w + second <= wdDeadline g)%Z
        /\ (forall w2 : World,
              watchdogs w2 !! i = Some g ->
              (clock w2 < clock w + second)%Z ->
              watchdogExpire i w2 = w2)).
Proof.
  intros Ha. cbv zeta.
  rewrite (traceStart_returns FuncName (newOtelTracer cfg) cs h ctx funcName
             virtualTrace tags attrs w eq_refl Ha).
  cbv zeta. cbn [fst snd watchdogs]. unfold watchdogOf.
  pose proof (ConfigFacts.validateConfig_timeout cfg) as Hbound.
  split.
  - intros ->. by rewrite app_nil_r.
  - intros ->. eexists _, _. split; [reflexivity|].
    cbn [wdDoneC wdSpan wdName wdWaiting wdStart wdDeadline].
    split.
    { do 2 f_equal. f_equal. lia. }
    split; [done|]. split; [done|]. split; [done|]. split; [done|].
    cbn [config newOtelTracer].
    split; [lia|].
    intros w2 Hg Hclock. unfold watchdogExpire. rewrite Hg.
    cbn [wdWaiting wdDeadline andb].
    destruct (Z.leb_spec
                (clock w + StuckFunctionTimeout (validateConfig cfg))
                (clock w2)) as [Hle|Hgt]; [lia | done].
Qed.

Lemma watchdog_waits_at_least_a_second_witness :
  mergedAttributes sampleHeap [] = Return []
  /\ exists g sid,
       watchdogs
         (traceStart qualifiedName
            (newOtelTracer (Some (sampleConfig true))) siteFGH sampleHeap
            (Some Background) "work" false [] emptyWorld).2
       = [g]
       /\ wdSpan g = sid
       /\ (clock emptyWorld + second <= wdDeadline g)%Z.
Proof.
  assert (H : mergedAttributes sampleHeap [] = Return [])
    by (vm_compute; reflexivity).
  split; [exact H|].
  destruct (proj2 (watchdog_waits_at_least_a_second qualifiedName
                     (Some (sampleConfig true)) siteFGH sampleHeap
                     (Some Background) "work" false [] [] emptyWorld H)
                  eq_refl)
    as [g [sid [Hw [_ [Hs [_ [_ [_ [Hd _]]]]]]]]].
  exists g, sid. split; [exact Hw|]. split; [exact Hs | exact Hd].
Defined.

End WatchdogDelay.

Module LeakFacts.
Import SafeMaps Otel Tracer Ancestry Lifecycle AncestryFacts CompletionFacts
  WatchdogFacts PipelineFacts Samples.

(** What a step that holds no completion function and no context can do:
    it ends nothing and closes no channel. *)
Local Abbreviation quiet w w' :=
  (exported w' = exported w
   /\ doneCs w' = doneCs w
   /\ forall id s, spans w !! id = Some s ->
        exists s', spans w' !! id = Some s'
                   /\ isRecording s' = isRecording s).

Lemma quiet_alter (g : Span -> Span) (j : SpanId) (w : World) :
  (forall s, isRecording (g s) = isRecording s) ->
  quiet w (withSpans (alter g j) w).
Proof.
  intros Hg. split; [done|]. split; [done|]. intros id s Hs.
  cbn [withSpans spans]. destruct (decide (id = j)) as [->|Hne].
  - rewrite list_lookup_alter_eq, Hs. cbn. eauto.
  - rewrite list_lookup_alter_ne by done. eauto.
Qed.

Lemma quiet_trans (w1 w2 w3 : World) :
  quiet w1 w2 -> quiet w2 w3 -> quiet w1 w3.
Proof.
  intros [He1 [Hd1 Hs1]] [He2 [Hd2 Hs2]].
  split; [congruence|]. split; [congruence|]. intros id s Hs.
  destruct (Hs1 id s Hs) as [s' [Hs' Hr']].
  destruct (Hs2 id s' Hs') as [s'' [Hs'' Hr'']].
  exists s''. split; [done | congruence].
Qed.

Lemma quiet_fields (w w' : World) :
  spans w' = spans w -> exported w' = exported w -> doneCs w' = doneCs w ->
  quiet w w'.
Proof. intros Hs He Hd. rewrite Hs. repeat split; eauto. Qed.

Lemma quiet_watchdogExpire (i : nat) (w : World) : quiet w (watchdogExpire i w).
Proof.
  unfold watchdogExpire.
  destruct (watchdogs w !! i) as [g|]; [|by apply quiet_fields].
  destruct (wdWaiting g && (wdDeadline g <=? clock w)%Z);
    [|by apply quiet_fields].
  set (w1 := withWatchdogs (alter (setWaiting false) i) w).
  assert (H1 : quiet w w1) by (by apply quiet_fields).
  destruct (negb (IsRecording (wdSpan g) w1)); [exact H1|].
  eapply quiet_trans; [exact H1|].
  eapply quiet_trans; [apply quiet_alter, isRecording_recordError|].
  eapply quiet_trans; [apply quiet_alter, isRecording_setAttributes|].
  apply quiet_alter, isRecording_setStatus.
Qed.

Lemma quiet_watchdogDone (i : nat) (w : World) : quiet w (watchdogDone i w).
Proof.
  unfold watchdogDone.
  destruct (watchdogs w !! i) as [g|]; [|by apply quiet_fields].
  destruct (wdWaiting g && default false (doneCs w !! wdDoneC g));
    by apply quiet_fields.
Qed.

Lemma quiet_background FuncName t h f ctx (l : list Attempt) :
  Forall (fun a => match a with
                   | Complete | ErrorOn _ _ _ => False
                   | _ => True
                   end) l ->
  forall w, quiet w (attempts FuncName t h f ctx l w).2.
Proof.
  induction 1 as [|a l Ha Hl IH]; intros w; [by apply quiet_fields|].
  cbn [attempts]. destruct a as [| | i | i | d]; try done;
    cbn [attempt]; (eapply quiet_trans; [|apply IH]).
  - apply quiet_watchdogExpire.
  - apply quiet_watchdogDone.
  - by apply quiet_fields.
Qed.



End LeakFacts.
